(** * lspc: frame decoder, process channel and daemon loop

    A shallow embedding of the Go sources of lspc (jsonrpc/split.go, the
    language-server channel, the URI helper and the daemon main loop),
    with the properties of its specification stated over that embedding.

    Conventions.  A Go [[]byte] or [string] is a [list Z] of byte values;
    a Go [int] is a [Z] kept in the 64-bit two's-complement range by
    [wrap]; slice indices that are bounded by [len(data)] are [nat].
    Library calls whose code is not part of the repository (the JSON
    codecs generated by easyjson, the shell tokenizer, the operating
    system) are parameters of the functions that use them. *)

From Stdlib Require Import ZArith List Lia Bool String Ascii.
From stdpp Require Import base list gmap.
Import ListNotations.
Open Scope Z_scope.

(** ** Bytes and strings *)

(** The bytes of a string literal. *)
Definition bytes (s : string) : list Z :=
  map (fun a => Z.of_N (N_of_ascii a)) (list_ascii_of_string s).

Definition CR : Z := 13.
Definition LF : Z := 10.

(** ** Go [int] *)

Definition MaxInt : Z := 2 ^ 63 - 1.
Definition MinInt : Z := - 2 ^ 63.

(** Two's-complement wrap-around of 64-bit signed arithmetic. *)
Definition wrap (z : Z) : Z := (z + 2 ^ 63) mod 2 ^ 64 - 2 ^ 63.

(** [len(data)] as a Go [int]. *)
Definition len (data : list Z) : Z := Z.of_nat (length data).

(** [data[i:j]] for in-range bounds. *)
Definition slice (data : list Z) (i j : nat) : list Z :=
  take (j - i)%nat (drop i data).

Module jsonrpc.

(** Errors a split function can return. *)
Inductive error : Type :=
  | ErrExpectedMore                 (* errors.New("Expected more content") *)
  | ErrUnexpectedToken (b : Z)      (* fmt.Errorf("Unexpected token '%c'", data[i]) *)
  | ErrSyntax                       (* strconv.ErrSyntax, from Atoi *)
  | ErrRange.                       (* strconv.ErrRange, from Atoi *)

(** What one call of a split function produces: the three named results
    [(advance, token, err)], or a run-time panic.  A [nil] token is
    [None]; an empty non-nil slice is [Some []]. *)
Inductive outcome : Type :=
  | Ret (advance : Z) (token : option (list Z)) (err : option error)
  | Panic.

(** [unicode.IsDigit(rune(b))] for a byte [b]: in the Latin-1 range the
    only decimal digits are '0'..'9'. *)
Definition IsDigit (b : Z) : bool := (48 <=? b) && (b <=? 57).

(** The value of a string of decimal digits, most significant first. *)
Definition digitsValue (ds : list Z) : Z :=
  fold_left (fun acc c => acc * 10 + (c - 48)) ds 0.

(** [strconv.Atoi]: an optional sign followed by one or more decimal
    digits, with the result checked against the range of [int]. *)
Definition Atoi (s : list Z) : Z + error :=
  let '(neg, ds) :=
    match s with
    | c :: rest => if c =? 43 then (false, rest)
                   else if c =? 45 then (true, rest)
                   else (false, s)
    | [] => (false, s)
    end in
  match ds with
  | [] => inr ErrSyntax
  | _ :: _ =>
    if forallb IsDigit ds then
      let v := digitsValue ds in
      if neg then (if v <=? 2 ^ 63 then inl (- v) else inr ErrRange)
      else (if v <=? MaxInt then inl v else inr ErrRange)
    else inr ErrSyntax
  end.

(** The closure [maybeAddEOFError]: the value [err] has after it ran. *)
Definition maybeAddEOFError (atEOF : bool) : option error :=
  if atEOF then Some ErrExpectedMore else None.

(** The closure [readString]: match [content] against [data] from index
    [i].  Returns the new [i] and the value of [err] afterwards.  When the
    input runs out before [content] does, [err] stays [nil] unless
    [atEOF]. *)
Fixpoint readString (content data : list Z) (atEOF : bool) (i : nat)
  : nat * option error :=
  match content with
  | [] => (i, None)
  | c :: content' =>
    match data !! i with
    | None => (i, maybeAddEOFError atEOF)
    | Some b =>
      if b =? c then readString content' data atEOF (S i)
      else (i, Some (ErrUnexpectedToken b))
    end
  end.

(** The digit loop, run on the part of [data] from index [i] on:
    [None] when the input runs out inside the number, otherwise the index
    of the first byte that is not a digit. *)
Fixpoint readDigits (rest : list Z) (i : nat) : option nat :=
  match rest with
  | [] => None
  | b :: rest' => if IsDigit b then readDigits rest' (S i) else Some i
  end.

Definition ContentLength : list Z := Eval cbv in bytes "Content-Length: ".
Definition CRLFCRLF : list Z := [CR; LF; CR; LF].

(** [SplitFunc], the [bufio.SplitFunc] of JSON-RPC messages. *)
Definition SplitFunc (data : list Z) (atEOF : bool) : outcome :=
  (* Read Content-Length: *)
  let '(i, err) := readString ContentLength data atEOF 0 in
  match err with
  | Some e => Ret 0 None (Some e)
  | None =>
    (* Read the number. *)
    let digitStart := i in
    match readDigits (drop i data) i with
    | None => Ret 0 None (maybeAddEOFError atEOF)
    | Some i =>
      match Atoi (slice data digitStart i) with
      | inr e => Ret 0 None (Some e)
      | inl contentLength =>
        (* Read \r\n\r\n *)
        let '(i, err) := readString CRLFCRLF data atEOF i in
        match err with
        | Some e => Ret 0 None (Some e)
        | None =>
          let j := wrap (Z.of_nat i + contentLength) in
          (* Not enough input yet; try again later. *)
          if j >? len data then Ret 0 None (maybeAddEOFError atEOF)
          else if Z.of_nat i <=? j
               then Ret j (Some (slice data i (Z.to_nat j))) None
               else Panic   (* data[i:j] with j < i *)
        end
      end
    end
  end.

(** [fmt.Sprintf("%d", n)]: the decimal digits of [n], most significant
    first, after a minus sign when [n] is negative. *)
Fixpoint utoa (fuel : nat) (n : Z) : list Z :=
  match fuel with
  | O => []
  | S fuel' =>
    if n <? 10 then [48 + n]
    else utoa fuel' (n / 10) ++ [48 + n mod 10]
  end.

Definition utoaFuel (n : Z) : nat := S (Z.to_nat (Z.log2 n + 1)).

Definition FormatInt (n : Z) : list Z :=
  if n <? 0 then 45 :: utoa (utoaFuel (- n)) (- n)
  else utoa (utoaFuel n) n.

(** What [marshalToWriter] sends for a body of [jw.Size()] bytes: the
    header [Content-Length: %d\r\n\r\n], then the body. *)
Definition frame (body : list Z) : list Z :=
  ContentLength ++ FormatInt (len body) ++ CRLFCRLF ++ body.

(** *** Frames and their prefixes *)

(** A header is the literal, a decimal number and the separator. *)
Definition header (ds : list Z) : list Z := ContentLength ++ ds ++ CRLFCRLF.

(** [ds] is a decimal number that [Atoi] reads as the length of [body]. *)
Definition declares (ds body : list Z) : Prop :=
  ds <> [] /\ forallb IsDigit ds = true /\ digitsValue ds = len body.

(** A payload whose frame fits a Go slice. *)
Definition fits (body : list Z) : Prop := len (frame body) <= MaxInt.

(** The frames of a sequence of payloads, one after the other. *)
Definition stream (payloads : list (list Z)) : list Z :=
  concat (map frame payloads).

(** Where a proper prefix [d] of a frame can end. *)
Inductive cut (ds body d : list Z) : Prop :=
  | cut_literal c2 : ContentLength = d ++ c2 -> c2 <> [] -> cut ds body d
  | cut_digits ds1 ds2 : ds = ds1 ++ ds2 -> d = ContentLength ++ ds1 -> cut ds body d
  | cut_separator s1 s2 :
      CRLFCRLF = s1 ++ s2 -> s1 <> [] -> s2 <> [] ->
      d = ContentLength ++ ds ++ s1 -> cut ds body d
  | cut_body b1 b2 : body = b1 ++ b2 -> b2 <> [] -> d = header ds ++ b1 -> cut ds body d.

(** *** The scanner protocol *)

(** Errors of a scan: the split function's own, or one of
    [bufio.Scanner]'s checks on the advance count. *)
Inductive scanError : Type :=
  | SplitError (e : error)
  | ErrNegativeAdvance
  | ErrAdvanceTooFar.

(** How scanning over the buffered bytes ends. *)
Inductive scanEnd : Type :=
  | NeedInput (buf : list Z)            (* no token yet: read more input *)
  | Stopped (err : option scanError)    (* [Scan] returned false *)
  | Panicked
  | OutOfFuel.

(** Successive calls of [Scan] against the bytes held in the buffer, in
    the way [bufio.Scanner] drives a split function: the split function
    is called when the buffer is non-empty or the input is exhausted; an
    error stops the scan; the buffer advances; a non-nil token is
    delivered and the next call goes on from the advanced buffer;
    otherwise more input is read, or the scan stops at end of input.
    The cap on the buffer size is not modelled. *)
Fixpoint scanBuffer (fuel : nat) (buf : list Z) (atEOF : bool)
  : list (list Z) * scanEnd :=
  match fuel with
  | O => ([], OutOfFuel)
  | S fuel' =>
    if negb atEOF && bool_decide (buf = []) then ([], NeedInput buf)
    else
      match SplitFunc buf atEOF with
      | Panic => ([], Panicked)
      | Ret _ _ (Some e) => ([], Stopped (Some (SplitError e)))
      | Ret advance token None =>
        if advance <? 0 then ([], Stopped (Some ErrNegativeAdvance))
        else if len buf <? advance then ([], Stopped (Some ErrAdvanceTooFar))
        else
          let buf' := drop (Z.to_nat advance) buf in
          match token with
          | Some t =>
            let '(ts, e) := scanBuffer fuel' buf' atEOF in (t :: ts, e)
          | None =>
            if atEOF then ([], Stopped None) else ([], NeedInput buf')
          end
      end
  end.

(** A stream read in pieces: each element of [chunks] is what one [Read]
    returned, and [final] is what arrived together with [io.EOF]
    (possibly nothing).  Returns the tokens of all successful [Scan]
    calls and how the scan ended.  The scanner's limit on consecutive
    empty reads is not modelled. *)
Fixpoint scanChunks (chunks : list (list Z)) (final : list Z) (buf : list Z)
  : list (list Z) * scanEnd :=
  match chunks with
  | [] => let data := buf ++ final in scanBuffer (S (length data)) data true
  | c :: chunks' =>
    let data := buf ++ c in
    let '(ts, e) := scanBuffer (S (length data)) data false in
    match e with
    | NeedInput buf' =>
      let '(ts', e') := scanChunks chunks' final buf' in (ts ++ ts', e')
    | _ => (ts, e)
    end
  end.

(** Scanning a reader from the start. *)
Definition scanStream (chunks : list (list Z)) (final : list Z)
  : list (list Z) * scanEnd :=
  scanChunks chunks final [].

End jsonrpc.

(** ** Paths to URIs *)

Module uri.

(** [utf8.RuneError], U+FFFD. *)
Definition RuneError : Z := 65533.

Definition inRange (lo hi b : Z) : bool := (lo <=? b) && (b <=? hi).

(** [utf8.DecodeRuneInString]: the first rune of a non-empty string and
    the number of bytes it takes.  A byte that does not start a
    well-formed sequence decodes to [RuneError] with width 1. *)
Definition DecodeRune (s : list Z) : Z * nat :=
  match s with
  | [] => (RuneError, 0%nat)
  | b0 :: s1 =>
    if inRange 0 127 b0 then (b0, 1%nat)
    else if inRange 194 223 b0 then
      match s1 with
      | b1 :: _ =>
        if inRange 128 191 b1
        then ((b0 - 192) * 64 + (b1 - 128), 2%nat)
        else (RuneError, 1%nat)
      | _ => (RuneError, 1%nat)
      end
    else if inRange 224 239 b0 then
      match s1 with
      | b1 :: b2 :: _ =>
        let lo := if b0 =? 224 then 160 else 128 in
        let hi := if b0 =? 237 then 159 else 191 in
        if inRange lo hi b1 && inRange 128 191 b2
        then ((b0 - 224) * 4096 + (b1 - 128) * 64 + (b2 - 128), 3%nat)
        else (RuneError, 1%nat)
      | _ => (RuneError, 1%nat)
      end
    else if inRange 240 244 b0 then
      match s1 with
      | b1 :: b2 :: b3 :: _ =>
        let lo := if b0 =? 240 then 144 else 128 in
        let hi := if b0 =? 244 then 143 else 191 in
        if inRange lo hi b1 && inRange 128 191 b2 && inRange 128 191 b3
        then ((b0 - 240) * 262144 + (b1 - 128) * 4096
              + (b2 - 128) * 64 + (b3 - 128), 4%nat)
        else (RuneError, 1%nat)
      | _ => (RuneError, 1%nat)
      end
    else (RuneError, 1%nat)
  end.

(** [for _, c := range s]: the runes of a string, in order. *)
Fixpoint runesFuel (fuel : nat) (s : list Z) : list Z :=
  match fuel, s with
  | S fuel', _ :: _ =>
    let '(c, w) := DecodeRune s in c :: runesFuel fuel' (drop w s)
  | _, _ => []
  end.

Definition runes (s : list Z) : list Z := runesFuel (length s) s.

(** [string(c)] for a rune [c]: its UTF-8 encoding; a value that is not
    a Unicode scalar value is encoded as U+FFFD. *)
Definition EncodeRune (c : Z) : list Z :=
  if inRange 0 127 c then [c]
  else if inRange 128 2047 c then [192 + c / 64; 128 + c mod 64]
  else if (c <? 0) || (1114111 <? c) || inRange 55296 57343 c
  then [239; 191; 189]
  else if c <? 65536
  then [224 + c / 4096; 128 + (c / 64) mod 64; 128 + c mod 64]
  else [240 + c / 262144; 128 + (c / 4096) mod 64;
        128 + (c / 64) mod 64; 128 + c mod 64].

(** [strings.Replace(s, old, new, -1)] for a non-empty [old]: every
    non-overlapping occurrence of [old], from the left, becomes [new].
    [skip] counts the bytes of a matched occurrence still to pass. *)
Fixpoint ReplaceFrom (old new : list Z) (skip : nat) (s : list Z) : list Z :=
  match s with
  | [] => []
  | b :: s' =>
    match skip with
    | S skip' => ReplaceFrom old new skip' s'
    | O =>
      if bool_decide (take (length old) s = old)
      then new ++ ReplaceFrom old new (length old - 1) s'
      else b :: ReplaceFrom old new 0 s'
    end
  end.

Definition Replace (s old new : list Z) : list Z := ReplaceFrom old new 0 s.

(** The table [m] of [pathToURI]. *)
Definition m : gmap Z (list Z) :=
  list_to_map
    [ (32, bytes "%20"); (35, bytes "%23"); (36, bytes "%24");
      (38, bytes "%26"); (40, bytes "%28"); (41, bytes "%29");
      (43, bytes "%2B"); (44, bytes "%2C"); (58, bytes "%3A");
      (59, bytes "%3B"); (63, bytes "%3F"); (64, bytes "%40") ].

(** [pathToURI]. *)
Definition pathToURI (absolutePath : list Z) : list Z :=
  let result :=
    fold_left
      (fun result c =>
         match m !! c with
         | Some escaped => result ++ escaped
         | None => result ++ EncodeRune c
         end)
      (runes absolutePath) [] in
  bytes "file://" ++ Replace result (bytes "\") (bytes "/").

(** The replacements the specification lists: a backslash becomes a
    forward slash, and each of the twelve reserved characters becomes
    its percent-escape. *)
Definition reserved (c : Z) : option (list Z) :=
  if c =? 92 then Some (bytes "/")            (* \ *)
  else if c =? 32 then Some (bytes "%20")     (* space *)
  else if c =? 35 then Some (bytes "%23")     (* # *)
  else if c =? 36 then Some (bytes "%24")     (* $ *)
  else if c =? 38 then Some (bytes "%26")     (* & *)
  else if c =? 40 then Some (bytes "%28")     (* ( *)
  else if c =? 41 then Some (bytes "%29")     (* ) *)
  else if c =? 43 then Some (bytes "%2B")     (* + *)
  else if c =? 44 then Some (bytes "%2C")     (* , *)
  else if c =? 58 then Some (bytes "%3A")     (* : *)
  else if c =? 59 then Some (bytes "%3B")     (* ; *)
  else if c =? 63 then Some (bytes "%3F")     (* ? *)
  else if c =? 64 then Some (bytes "%40")     (* @ *)
  else None.

(** The specification's rule for one character of the path: replaced
    if it is listed, unchanged otherwise. *)
Definition escapeChar (c : Z) : list Z :=
  match reserved c with
  | Some replacement => replacement
  | None => EncodeRune c
  end.

(** The same rule for one byte of the path. *)
Definition escapeByte (b : Z) : list Z :=
  match reserved b with
  | Some replacement => replacement
  | None => [b]
  end.

(** The table, as a function of the rune. *)
Definition tableEscape (c : Z) : option (list Z) :=
  if c =? 32 then Some (bytes "%20")
  else if c =? 35 then Some (bytes "%23")
  else if c =? 36 then Some (bytes "%24")
  else if c =? 38 then Some (bytes "%26")
  else if c =? 40 then Some (bytes "%28")
  else if c =? 41 then Some (bytes "%29")
  else if c =? 43 then Some (bytes "%2B")
  else if c =? 44 then Some (bytes "%2C")
  else if c =? 58 then Some (bytes "%3A")
  else if c =? 59 then Some (bytes "%3B")
  else if c =? 63 then Some (bytes "%3F")
  else if c =? 64 then Some (bytes "%40")
  else None.

(** Replacing backslashes, byte by byte. *)
Definition slash (b : Z) : list Z := if bool_decide (b = 92) then bytes "/" else [b].

(** [utf8.ValidString]: no position decodes as an encoding error. *)
Fixpoint ValidFuel (fuel : nat) (s : list Z) : bool :=
  match fuel, s with
  | S fuel', _ :: _ =>
    let '(c, w) := DecodeRune s in
    negb ((c =? RuneError) && (w =? 1)%nat) && ValidFuel fuel' (drop w s)
  | _, _ => true
  end.

Definition ValidString (s : list Z) : bool := ValidFuel (length s) s.

End uri.

(** ** The language-server channel *)

Module channel.
Import jsonrpc uri.

(** Error values a channel meets. *)
Inductive error : Type :=
  | EOF                                 (* io.EOF *)
  | ErrScan (e : scanError)             (* what scanner.Err() returns *)
  | ErrInvalidCommandLine               (* the tokenizer's error *)
  | ErrOS (code : nat).                 (* an error of the operating system *)

(** [easyjson.Marshaler] and the decoder generated for a type.  The
    generated code is not among the sources, so every function that
    encodes or decodes takes the codec as a parameter. *)
Class Marshaler (A : Type) := MarshalEasyJSON : A -> list Z.
Class Unmarshaler (A : Type) := UnmarshalJSON : list Z -> A -> A.

(** [JSONRPCHeader]. *)
Record JSONRPCHeader : Type := mkHeader {
  JSONRPC : list Z;
  Method : list Z;
  ID : Z;
  Params : list Z;
}.

(** [LsInitializeParams]. *)
Record LsInitializeParams : Type := mkInitializeParams {
  RootURI : list Z;
  InitializationOptions : list Z;
}.

(** A [responseHandler]: the handlers the sources define, and handlers
    supplied by callers, told apart by a name. *)
Inductive responseHandler : Type :=
  | dummyHandler                  (* func(_ easyjson.RawMessage) {} *)
  | initializeHandler             (* logs "Got initialize response" *)
  | callerHandler (name : nat).

Inductive logLine : Type :=
  | LogWriteWhileError (e : error)  (* "Attempt to write message while language server has error" *)
  | LogNoHandler (id : Z)           (* "No handler for response id %d" *)
  | LogGotInitializeResponse.

(** What a channel does to the world around it, in order. *)
Inductive effect : Type :=
  | Wrote (frame : list Z)                  (* bytes sent to the worker's stdin *)
  | Called (h : responseHandler) (json : list Z)   (* response(header.Params) *)
  | Logged (line : logLine)
  | Echoed (data : list Z)                  (* fmt.Printf("stderr: %s", ...) *)
  | Published.                              (* languageServerClosed <- l *)

(** [languageServer]: the fields of the struct, and the trace of the
    effects the channel has had. *)
Record languageServer : Type := mkLanguageServer {
  cmdArgs : list (list Z);
  directory : list Z;
  nextRequestID : Z;
  onResponse : gmap Z responseHandler;
  err : option error;
  trace : list effect;
}.

Definition set_nextRequestID (v : Z) (l : languageServer) : languageServer :=
  mkLanguageServer (cmdArgs l) (directory l) v (onResponse l) (err l) (trace l).
Definition set_onResponse (v : gmap Z responseHandler) (l : languageServer) : languageServer :=
  mkLanguageServer (cmdArgs l) (directory l) (nextRequestID l) v (err l) (trace l).
Definition set_err (v : option error) (l : languageServer) : languageServer :=
  mkLanguageServer (cmdArgs l) (directory l) (nextRequestID l) (onResponse l) v (trace l).
Definition emit (e : effect) (l : languageServer) : languageServer :=
  mkLanguageServer (cmdArgs l) (directory l) (nextRequestID l) (onResponse l) (err l)
    (trace l ++ [e]).

(** Calling a handler. *)
Definition call (h : responseHandler) (json : list Z) (l : languageServer) : languageServer :=
  let l := emit (Called h json) l in
  match h with
  | initializeHandler => emit (Logged LogGotInitializeResponse) l
  | _ => l
  end.

(** A handle as [startLanguageServer] creates it, before any request. *)
Definition fresh (exe : list (list Z)) (dir : list Z) : languageServer :=
  mkLanguageServer exe dir 0 ∅ None [].

(** A request: method, params, handler, and the outcome of its write. *)
Definition request : Type := list Z * list Z * option responseHandler * option error.

Definition handlerOf (r : request) : responseHandler :=
  match r with
  | (_, _, Some h, _) => h
  | (_, _, None, _) => dummyHandler
  end.

(** *** Observations on a trace *)

(** The handler calls made, in order. *)
Definition calls (l : languageServer) : list (responseHandler * list Z) :=
  omap (fun e => match e with Called h json => Some (h, json) | _ => None end) (trace l).

(** The frames written to the worker's input. *)
Definition written (l : languageServer) : list (list Z) :=
  omap (fun e => match e with Wrote f => Some f | _ => None end) (trace l).

(** How many times the handle was sent on [languageServerClosed]. *)
Definition publications (l : languageServer) : nat :=
  length (omap (fun e => match e with Published => Some tt | _ => None end) (trace l)).

(** The operations that run on one handle: the calls of a sender, the
    steps of the reader of the output stream and the reader of the
    diagnostic stream. *)
Inductive op : Type :=
  | OpWriteRequest (method params : list Z) (handler : option responseHandler)
                   (w : option error)
  | OpWriteNotification (method params : list Z) (w : option error)
  | OpStdoutToken (token : list Z)
  | OpStdoutEnd (scanErr : option error)
  | OpStderr (reads : list (list Z * option error)).

(** The error of the first read that fails. *)
Fixpoint firstError (reads : list (list Z * option error)) : option error :=
  match reads with
  | [] => None
  | (_, Some e) :: _ => Some e
  | (_, None) :: reads' => firstError reads'
  end.

(** The diagnostic output echoed so far. *)
Definition echoed (l : languageServer) : list (list Z) :=
  omap (fun e => match e with Echoed data => Some data | _ => None end) (trace l).

(** What the reads that succeeded before the first failure returned. *)
Fixpoint readsBeforeError (reads : list (list Z * option error)) : list (list Z) :=
  match reads with
  | (data, None) :: reads' => data :: readsBeforeError reads'
  | _ => []
  end.

(** The requests among the operations of a schedule, in order. *)
Definition requestsOf (ops : list op) : list request :=
  omap (fun o => match o with
                 | OpWriteRequest method params handler w =>
                   Some (method, params, handler, w)
                 | _ => None
                 end) ops.

(** The outcome of the write of an operation that writes. *)
Definition writeOutcome (o : op) : option (option error) :=
  match o with
  | OpWriteRequest _ _ _ w | OpWriteNotification _ _ w => Some w
  | _ => None
  end.

(** The writes of a schedule: their number up to the first that fails,
    and the error of that one. *)
Fixpoint writesBeforeFailure (ops : list op) : nat :=
  match ops with
  | [] => 0
  | o :: ops' =>
    match writeOutcome o with
    | Some (Some _) => 0
    | Some None => S (writesBeforeFailure ops')
    | None => writesBeforeFailure ops'
    end
  end.

Fixpoint firstWriteError (ops : list op) : option error :=
  match ops with
  | [] => None
  | o :: ops' =>
    match writeOutcome o with
    | Some (Some e) => Some e
    | _ => firstWriteError ops'
    end
  end.

(** An operation of a sender or on a token of the output stream, as
    opposed to the end of a reader. *)
Definition beforeReadersEnd (o : op) : bool :=
  match o with
  | OpWriteRequest _ _ _ _ | OpWriteNotification _ _ _ | OpStdoutToken _ => true
  | _ => false
  end.

Section codecs.
Context `{Marshaler JSONRPCHeader} `{Marshaler LsInitializeParams}
        `{Unmarshaler JSONRPCHeader}.

(** [marshalToWriter(v, l.stdin)]: the header line and the content go
    to the pipe.  [w] is what the write of the content returns; bytes
    that reached the pipe before a failed write are not recorded. *)
Definition marshalToWriter (v : JSONRPCHeader) (w : option error)
    (l : languageServer) : languageServer * option error :=
  match w with
  | None => (emit (Wrote (frame (MarshalEasyJSON v))) l, None)
  | Some e => (l, Some e)
  end.

(** [rawWriteMsg]. *)
Definition rawWriteMsg (method params : list Z) (id : Z) (w : option error)
    (l : languageServer) : languageServer :=
  match err l with
  | Some e => emit (Logged (LogWriteWhileError e)) l
  | None =>
    let content := mkHeader (bytes "2.0") method id params in
    let '(l, e) := marshalToWriter content w l in
    match e with
    | Some e => emit Published (set_err (Some e) l)
    | None => l
    end
  end.

(** [writeRequest]; a [nil] handler is [None]. *)
Definition writeRequest (method params : list Z)
    (handler : option responseHandler) (w : option error)
    (l : languageServer) : languageServer :=
  let id := nextRequestID l in
  let l := set_nextRequestID (wrap (id + 1)) l in
  let handler := match handler with None => dummyHandler | Some h => h end in
  let l := set_onResponse (<[id := handler]> (onResponse l)) l in
  rawWriteMsg method params id w l.

(** [writeNotification]. *)
Definition writeNotification (method params : list Z) (w : option error)
    (l : languageServer) : languageServer :=
  rawWriteMsg method params (-1) w l.

(** [toJSON].  [BuildBytes] reports an error only when the encoder
    recorded one; an encoder here is a total function to bytes, so the
    call of [panicIfError] is not reached. *)
Definition toJSON {A} `{Marshaler A} (v : A) : list Z := MarshalEasyJSON v.

(** The parameters [writeInitialize] builds. *)
Definition initializeParams (l : languageServer) (initOpts : list Z) : LsInitializeParams :=
  mkInitializeParams (pathToURI (directory l)) initOpts.

(** [writeInitialize]. *)
Definition writeInitialize (initOpts : list Z) (w : option error)
    (l : languageServer) : languageServer :=
  writeRequest (bytes "initialize") (toJSON (initializeParams l initOpts))
    (Some initializeHandler) w l.

(** The body of the loop of [stdoutReader], for one scanned token. *)
Definition stdoutReader_token (token : list Z) (l : languageServer) : languageServer :=
  let header := UnmarshalJSON token (mkHeader [] [] (-1) []) in
  if ID header >=? 0 then
    match onResponse l !! ID header with
    | Some response => call response (Params header) l
    | None => emit (Logged (LogNoHandler (ID header))) l
    end
  else l.

(** What [stdoutReader] does once [scanner.Scan()] has returned false;
    [scanErr] is [scanner.Err()]. *)
Definition stdoutReader_end (scanErr : option error) (l : languageServer) : languageServer :=
  let l := match scanErr with
           | Some e => set_err (Some e) l
           | None => l
           end in
  emit Published l.

(** [stdoutReader], run on the tokens the scanner delivers. *)
Definition stdoutReader (tokens : list (list Z)) (scanErr : option error)
    (l : languageServer) : languageServer :=
  stdoutReader_end scanErr
    (fold_left (fun l token => stdoutReader_token token l) tokens l).

(** [stderrReader], run on the results [(buffer[:n], e)] of the
    successive calls of [l.stderr.Read].  The second component tells
    whether the function has returned; a reader whose reads so far all
    succeeded is still in its loop. *)
Fixpoint stderrReader (reads : list (list Z * option error))
    (l : languageServer) : languageServer * bool :=
  match reads with
  | [] => (l, false)
  | (_, Some e) :: _ =>
    let l := set_err (Some e) l in
    let l := emit Published l in
    (* break *)
    (emit Published l, true)
  | (data, None) :: reads' => stderrReader reads' (emit (Echoed data) l)
  end.

(** What the operating system and the tokenizer answer during one call
    of [startLanguageServer]. *)
Record spawnEnv : Type := mkSpawnEnv {
  Parse : list Z -> list (list Z) + error;   (* shellwords.Parse *)
  StdinPipe : option error;                  (* error of cmd.StdinPipe() *)
  StdoutPipe : option error;                 (* error of cmd.StdoutPipe() *)
  StderrPipe : option error;                 (* error of cmd.StderrPipe() *)
  Start : option error;                      (* error of cmd.Start() *)
  initializeWrite : option error;            (* error of writing the first request *)
}.

(** The errors [startLanguageServer] returns. *)
Inductive startError : Type :=
  | CannotParse (bin : list Z) (e : error)   (* fmt.Errorf("cannot parse <%s>; error=%s") *)
  | PipeFailed (e : error)                   (* from StdinPipe, StdoutPipe or StderrPipe *)
  | StartFailed (e : error).                 (* from cmd.Start *)

Inductive startResult : Type :=
  | Started (l : languageServer)
  | Failed (e : startError)
  | Panics.                                  (* run-time panic *)

(** The kinds of error of the specification. *)
Inductive SpawnErrorKind : Type := BadCommandLine | ExecutableNotFound | PipeSetupFailed.

Definition kind (e : startError) : SpawnErrorKind :=
  match e with
  | CannotParse _ _ => BadCommandLine
  | PipeFailed _ => PipeSetupFailed
  | StartFailed _ => ExecutableNotFound
  end.

(** [startLanguageServer].  The two reader goroutines it launches run
    after it; they are [stdoutReader] and [stderrReader] above. *)
Definition startLanguageServer (env : spawnEnv) (bin directory initOpts : list Z)
  : startResult :=
  match Parse env bin with
  | inr e => Failed (CannotParse bin e)
  | inl exe =>
    match exe with
    | [] => Panics                           (* exe[0]: index out of range *)
    | _ :: _ =>
      let ls := mkLanguageServer exe directory 0 ∅ None [] in
      match StdinPipe env with
      | Some e => Failed (PipeFailed e)
      | None =>
        match StdoutPipe env with
        | Some e => Failed (PipeFailed e)
        | None =>
          match StderrPipe env with
          | Some e => Failed (PipeFailed e)
          | None =>
            match Start env with
            | Some e => Failed (StartFailed e)
            | None => Started (writeInitialize initOpts (initializeWrite env) ls)
            end
          end
        end
      end
    end
  end.

(** The handler call a token leads to, against a table of handlers. *)
Definition dispatch (table : gmap Z responseHandler) (token : list Z)
  : list (responseHandler * list Z) :=
  let header := UnmarshalJSON token (mkHeader [] [] (-1) []) in
  if ID header >=? 0 then
    match table !! ID header with
    | Some h => [(h, Params header)]
    | None => []
    end
  else [].

(** [stdoutReader] on an output stream that is read in pieces and ends
    with [io.EOF]; [None] when the scan panics. *)
Definition stdoutReader_stream (chunks : list (list Z)) (final : list Z)
    (l : languageServer) : option languageServer :=
  match scanStream chunks final with
  | (tokens, Stopped e) => Some (stdoutReader tokens (ErrScan <$> e) l)
  | _ => None
  end.

(** Requests issued one after the other. *)
Definition writeRequests (reqs : list request) (l : languageServer) : languageServer :=
  fold_left (fun l r => let '(method, params, handler, w) := r in
                        writeRequest method params handler w l) reqs l.

(** The header a token decodes to, starting from [ID = -1]. *)
Definition decoded (token : list Z) : JSONRPCHeader :=
  UnmarshalJSON token (mkHeader [] [] (-1) []).

(** One operation, and a sequence of operations, on a handle. *)
Definition runOp (o : op) (l : languageServer) : languageServer :=
  match o with
  | OpWriteRequest method params handler w => writeRequest method params handler w l
  | OpWriteNotification method params w => writeNotification method params w l
  | OpStdoutToken token => stdoutReader_token token l
  | OpStdoutEnd scanErr => stdoutReader_end scanErr l
  | OpStderr reads => fst (stderrReader reads l)
  end.

Definition runOps (ops : list op) (l : languageServer) : languageServer :=
  fold_left (fun l o => runOp o l) ops l.

End codecs.

(** A tokenizer for command lines without quoting: the words between
    blanks.  It stands for [shellwords.Parse] in closed examples; like
    it, it finds no word in a blank line and reports no error. *)
Fixpoint splitWords (line : list Z) (word : list Z) : list (list Z) :=
  match line with
  | [] => match word with [] => [] | _ => [word] end
  | c :: line' =>
    if (c =? 32) || (c =? 9) || (c =? 13) || (c =? 10)
    then match word with
         | [] => splitWords line' []
         | _ => word :: splitWords line' []
         end
    else splitWords line' (word ++ [c])
  end.

(** *** A codec for closed examples *)

(** A header is written as its id, method and params separated by
    blanks; a token is read back as a one-digit id followed by the
    params.  The theorems below hold for every codec; this one only
    instantiates them. *)
Definition exampleMarshalHeader : Marshaler JSONRPCHeader :=
  fun v => FormatInt (ID v) ++ bytes " " ++ Method v ++ bytes " " ++ Params v.
Definition exampleMarshalParams : Marshaler LsInitializeParams :=
  fun v => RootURI v ++ bytes " " ++ InitializationOptions v.
Definition exampleUnmarshalHeader : Unmarshaler JSONRPCHeader :=
  fun token v =>
    match token with
    | c :: rest =>
      if IsDigit c then mkHeader (JSONRPC v) (Method v) (c - 48) rest else v
    | [] => v
    end.

End channel.

(** ** The daemon *)

Module daemon.
Import channel.

Section codecs.
Context `{Marshaler JSONRPCHeader} `{Marshaler LsInitializeParams}
        `{Unmarshaler JSONRPCHeader}.

(** [StartArgs]. *)
Record StartArgs : Type := mkStartArgs {
  Bin : list Z;
  Directory : list Z;
  InitOpts : list Z;
}.

Inductive logLine : Type :=
  | LogClosed (server : nat)                    (* "... has closed" *)
  | LogClosedErr (server : nat) (e : error).    (* "... has closed (err=%s)" *)

(** The [Server] value and the globals of the daemon.  A
    [*languageServer] is its index in [heap]. *)
Record state : Type := mkState {
  servers : list nat;               (* Server.servers *)
  heap : list languageServer;
  gShutdown : bool;
  gTimeout : Z;                     (* seconds *)
  deadline : Z;                     (* when [countdown] fires, in nanoseconds *)
  pid : Z;                          (* os.Getpid() *)
  log : list logLine;
}.

(** [time.Duration(gTimeout) * time.Second], in nanoseconds. *)
Definition timeout (s : state) : Z := wrap (gTimeout s * 1000000000).

(** [countdown.Reset(timeout)] at time [now]. *)
Definition resetCountdown (now : Z) (s : state) : state :=
  mkState (servers s) (heap s) (gShutdown s) (gTimeout s) (now + timeout s) (pid s) (log s).

(** The calls a client can make, with what the environment answers
    while a language server is started. *)
Inductive rpc : Type :=
  | KeepAlive
  | Kill
  | ServerPid
  | Ls
  | StartServer (args : StartArgs) (env : spawnEnv).

Inductive reply : Type :=
  | Done
  | Pid (p : Z)
  | Listing (entries : list (list (list Z) * list Z))   (* cmd.Args and directory *)
  | Error (e : startError).

Definition isKill (c : rpc) : bool :=
  match c with Kill => true | _ => false end.

(** The methods of [Server]; [None] is a panic in the method. *)
Definition serve (now : Z) (c : rpc) (s : state) : option (state * reply) :=
  match c with
  | KeepAlive => Some (resetCountdown now s, Done)
  | Kill =>
    Some (mkState (servers s) (heap s) true (gTimeout s) (deadline s) (pid s) (log s), Done)
  | ServerPid => Some (s, Pid (pid s))
  | Ls =>
    Some (s, Listing (omap (fun p => (fun l => (cmdArgs l, directory l)) <$> heap s !! p)
                           (servers s)))
  | StartServer args env =>
    match startLanguageServer env (Bin args) (Directory args) (InitOpts args) with
    | Panics => None
    | Failed e => Some (s, Error e)
    | Started ls =>
      Some (mkState (servers s ++ [length (heap s)]) (heap s ++ [ls])
                    (gShutdown s) (gTimeout s) (deadline s) (pid s) (log s), Done)
    end
  end.

(** [rpc.ServeConn(c)]: the calls of one client session, served until
    the client hangs up. *)
Fixpoint ServeConn (now : Z) (calls : list rpc) (s : state) : option state :=
  match calls with
  | [] => Some s
  | c :: calls' =>
    match serve now c s with
    | None => None
    | Some (s', _) => ServeConn now calls' s'
    end
  end.

(** The loop over [server.servers] that drops every entry equal to
    [closed], writing a log line for each: the entries kept and the
    lines logged. *)
Fixpoint removeFrom (closed : nat) (closedErr : option error) (entries : list nat)
  : list nat * list logLine :=
  match entries with
  | [] => ([], [])
  | p :: entries' =>
    let '(kept, lines) := removeFrom closed closedErr entries' in
    if decide (p = closed)
    then (kept, match closedErr with
                | None => LogClosed closed
                | Some e => LogClosedErr closed e
                end :: lines)
    else (p :: kept, lines)
  end.

Definition removeClosed (closed : nat) (closedErr : option error) (s : state) : state :=
  let '(kept, lines) := removeFrom closed closedErr (servers s) in
  mkState kept (heap s) (gShutdown s) (gTimeout s) (deadline s) (pid s) (log s ++ lines).

(** What the [select] of the main loop can receive: a connection, with
    the time at which serving it ends; a closed language server, with
    the value of its [err] field when the loop reads it; the timer. *)
Inductive event : Type :=
  | Conn (now : Z) (calls : list rpc)
  | LanguageServerClosed (closed : nat) (closedErr : option error)
  | CountdownFired.

Inductive loopState : Type :=
  | Running (s : state)          (* back at the [select] *)
  | ShuttingDown (s : state)     (* [break loop]: the listener is closed and the loop returns *)
  | Crashed.                     (* a panic while serving *)

(** One iteration of the main loop. *)
Definition iteration (ev : event) (s : state) : loopState :=
  match ev with
  | Conn now calls =>
    match ServeConn now calls s with
    | None => Crashed
    | Some s' =>
      if gShutdown s' then ShuttingDown s'
      else Running (resetCountdown now s')
    end
  | LanguageServerClosed closed closedErr => Running (removeClosed closed closedErr s)
  | CountdownFired => ShuttingDown s
  end.

(** [daemonMainLoop], from the first [select] on, against the events it
    receives.  The goroutine that accepts connections runs beside the
    loop and is not modelled; it sets [gShutdown] when accepting fails,
    so the loop is run from a state whose flag may already be set. *)
Fixpoint daemonMainLoop (events : list event) (s : state) : loopState :=
  match events with
  | [] => Running s
  | ev :: events' =>
    match iteration ev s with
    | Running s' => daemonMainLoop events' s'
    | stop => stop
    end
  end.

End codecs.

(** What [Ls] lists for a state. *)
Definition listing (s : state) : list (list (list Z) * list Z) :=
  omap (fun p => (fun l => (cmdArgs l, directory l)) <$> heap s !! p) (servers s).

(** The registry holds each language server at most once, and only
    language servers that exist. *)
Definition registryOk (s : state) : Prop :=
  NoDup (servers s) /\ Forall (fun p => (p < length (heap s))%nat) (servers s).

End daemon.

(** ** Sample data for closed examples *)

Module samples.
Import channel daemon.

(** A handle for a worker [ls] started in [/w]. *)
Definition sampleHandle : languageServer := fresh [bytes "ls"] (bytes "/w").

(** The same handle after its worker was found closed. *)
Definition closedHandle : languageServer := set_err (Some EOF) sampleHandle.

(** Two requests: the handshake, then one with the handler [7]. *)
Definition sampleRequests : list request :=
  [ (bytes "initialize", bytes "{}", Some initializeHandler, None);
    (bytes "hover", bytes "{}", Some (callerHandler 7), None) ].

(** A response to the second request, with params [x]. *)
Definition sampleResponse : list Z := bytes "1x".

(** An environment in which every step of a start succeeds, with the
    blank-separated tokenizer. *)
Definition sampleEnv : spawnEnv :=
  mkSpawnEnv (fun line => inl (splitWords line [])) None None None None None.

(** A daemon with a timeout of 1800 seconds and no language server. *)
Definition sampleDaemon : state := mkState [] [] false 1800 1800000000000 4242 [].

(** A handle for a worker started in [C:\My Docs]. *)
Definition windowsHandle : languageServer := fresh [bytes "ls"] (bytes "C:\My Docs").

(** A schedule: a request, a notification, a token, a second request. *)
Definition sampleSchedule : list op :=
  [ OpWriteRequest (bytes "initialize") (bytes "{}") (Some initializeHandler) None;
    OpWriteNotification (bytes "initialized") (bytes "{}") None;
    OpStdoutToken (bytes "0x");
    OpWriteRequest (bytes "hover") (bytes "{}") (Some (callerHandler 7)) None ].

(** Writes of which the second fails with a broken pipe. *)
Definition brokenPipe : error := ErrOS 32.
Definition sampleWrites : list op :=
  [ OpWriteRequest (bytes "initialize") (bytes "{}") (Some initializeHandler) None;
    OpWriteNotification (bytes "initialized") (bytes "{}") (Some brokenPipe);
    OpWriteRequest (bytes "hover") (bytes "{}") (Some (callerHandler 7)) None ].

End samples.

(** * Properties *)

(** ** Go [int] arithmetic *)

Lemma wrap_small z : MinInt <= z <= MaxInt -> wrap z = z.
Proof.
  unfold wrap, MinInt, MaxInt. intros Hz.
  rewrite Z.mod_small by lia. lia.
Qed.

Lemma len_app (a b : list Z) : len (a ++ b) = len a + len b.
Proof. unfold len. rewrite length_app. lia. Qed.

Lemma len_nonneg (a : list Z) : 0 <= len a.
Proof. unfold len. lia. Qed.

Lemma slice_middle (pre mid post : list Z) :
  slice (pre ++ mid ++ post) (length pre) (length pre + length mid) = mid.
Proof.
  unfold slice. rewrite drop_app_length.
  replace (length pre + length mid - length pre)%nat with (length mid) by lia.
  apply take_app_length.
Qed.

Module jsonrpc_facts.
Import jsonrpc.

(** *** [readString] *)

Lemma readString_match content : forall pre rest atEOF,
  readString content (pre ++ content ++ rest) atEOF (length pre)
  = ((length pre + length content)%nat, None).
Proof.
  induction content as [|c content IH]; intros pre rest atEOF; simpl.
  - by rewrite Nat.add_0_r.
  - rewrite list_lookup_middle by done. rewrite Z.eqb_refl.
    specialize (IH (pre ++ [c]) rest atEOF).
    rewrite <- app_assoc, length_app in IH. simpl in IH.
    rewrite Nat.add_1_r in IH. rewrite IH. f_equal. lia.
Qed.

Lemma readString_short c1 : forall c2 pre atEOF,
  c2 <> [] ->
  readString (c1 ++ c2) (pre ++ c1) atEOF (length pre)
  = (length (pre ++ c1), maybeAddEOFError atEOF).
Proof.
  induction c1 as [|c c1 IH]; intros c2 pre atEOF Hc2; simpl.
  - destruct c2 as [|y c2]; [done|]. simpl.
    rewrite app_nil_r. by rewrite lookup_ge_None_2.
  - rewrite list_lookup_middle by done. rewrite Z.eqb_refl.
    specialize (IH c2 (pre ++ [c]) atEOF Hc2).
    rewrite <- app_assoc, length_app in IH. simpl in IH.
    rewrite Nat.add_1_r in IH. by rewrite IH.
Qed.

Lemma readString_mismatch content atEOF : forall data i k b c,
  data !! (i + k)%nat = Some b -> content !! k = Some c -> b <> c ->
  exists i' b', readString content data atEOF i
                = (i', Some (ErrUnexpectedToken b')).
Proof.
  induction content as [|c0 content IH]; intros data i k b c Hb Hc Hne.
  - by rewrite lookup_nil in Hc.
  - simpl. destruct (data !! i) as [b0|] eqn:Hi.
    + destruct (Z.eqb_spec b0 c0) as [->|Hne0].
      * destruct k as [|k].
        -- rewrite Nat.add_0_r in Hb. simpl in Hc. congruence.
        -- simpl in Hc. apply (IH data (S i) k b c); [|done..].
           by replace (S i + k)%nat with (i + S k)%nat by lia.
      * eauto.
    + apply lookup_ge_None_1 in Hi. apply lookup_lt_Some in Hb. lia.
Qed.

(** *** The digit loop and [Atoi] *)

Lemma readDigits_stop ds : forall b rest i,
  forallb IsDigit ds = true -> IsDigit b = false ->
  readDigits (ds ++ b :: rest) i = Some (i + length ds)%nat.
Proof.
  induction ds as [|d ds IH]; intros b rest i Hds Hb; simpl.
  - rewrite Hb. f_equal. lia.
  - simpl in Hds. apply andb_true_iff in Hds as [Hd Hds].
    rewrite Hd, IH by done. f_equal. lia.
Qed.

Lemma readDigits_short ds : forall i,
  forallb IsDigit ds = true -> readDigits ds i = None.
Proof.
  induction ds as [|d ds IH]; intros i Hds; simpl; [done|].
  simpl in Hds. apply andb_true_iff in Hds as [Hd Hds].
  by rewrite Hd, IH.
Qed.

Lemma Atoi_digits ds :
  ds <> [] -> forallb IsDigit ds = true -> digitsValue ds <= MaxInt ->
  Atoi ds = inl (digitsValue ds).
Proof.
  intros Hne Hds Hv. unfold Atoi.
  destruct ds as [|c ds]; [done|].
  assert (Hc : IsDigit c = true) by (simpl in Hds; by apply andb_true_iff in Hds as [? _]).
  unfold IsDigit in Hc. apply andb_true_iff in Hc as [Hc1 Hc2].
  destruct (Z.eqb_spec c 43); [lia|]. destruct (Z.eqb_spec c 45); [lia|].
  rewrite Hds. by destruct (Z.leb_spec (digitsValue (c :: ds)) MaxInt); [|lia].
Qed.

Lemma digitsValue_snoc ds d : digitsValue (ds ++ [d]) = digitsValue ds * 10 + (d - 48).
Proof. unfold digitsValue. by rewrite fold_left_app. Qed.

(** *** Decimal formatting *)

Lemma utoa_spec fuel : forall n,
  0 <= n < 2 ^ Z.of_nat fuel ->
  utoa (S fuel) n <> [] /\ forallb IsDigit (utoa (S fuel) n) = true
  /\ digitsValue (utoa (S fuel) n) = n.
Proof.
  induction fuel as [|fuel IH]; intros n Hn.
  - assert (n = 0) as -> by (simpl in Hn; lia). by vm_compute.
  - change (utoa (S (S fuel)) n)
      with (if n <? 10 then [48 + n] else utoa (S fuel) (n / 10) ++ [48 + n mod 10]).
    destruct (Z.ltb_spec n 10) as [Hlt|Hge].
    + split; [done|]. split.
      * simpl. unfold IsDigit. rewrite andb_true_r.
        apply andb_true_iff. split; lia.
      * unfold digitsValue. simpl. lia.
    + assert (Hdiv : 0 <= n / 10 < 2 ^ Z.of_nat fuel).
      { rewrite Nat2Z.inj_succ, Z.pow_succ_r in Hn by lia.
        split; [apply Z.div_pos; lia|].
        apply Z.div_lt_upper_bound; lia. }
      destruct (IH _ Hdiv) as (Hne & Hds & Hv).
      split; [by destruct (utoa (S fuel) (n / 10))|]. split.
      * rewrite forallb_app, Hds. simpl. unfold IsDigit.
        pose proof (Z.mod_pos_bound n 10 ltac:(lia)).
        rewrite andb_true_r. apply andb_true_iff. split; lia.
      * rewrite digitsValue_snoc, Hv.
        pose proof (Z.div_mod n 10 ltac:(lia)). lia.
Qed.

Lemma FormatInt_spec n :
  0 <= n ->
  FormatInt n <> [] /\ forallb IsDigit (FormatInt n) = true
  /\ digitsValue (FormatInt n) = n.
Proof.
  intros Hn. unfold FormatInt.
  destruct (Z.ltb_spec n 0); [lia|]. unfold utoaFuel.
  apply utoa_spec. split; [done|].
  rewrite Z2Nat.id by (pose proof (Z.log2_nonneg n); lia).
  destruct (Z.eq_dec n 0) as [->|Hn0]; [by vm_compute|].
  apply Z.log2_spec. lia.
Qed.

(** *** One call of [SplitFunc] *)

Lemma FormatInt_declares body : declares (FormatInt (len body)) body.
Proof. apply FormatInt_spec, len_nonneg. Qed.

Lemma frame_header body : frame body = header (FormatInt (len body)) ++ body.
Proof. unfold frame, header. by rewrite <- !app_assoc. Qed.

Lemma readString_match0 content rest atEOF :
  readString content (content ++ rest) atEOF 0 = (length content, None).
Proof. exact (readString_match content [] rest atEOF). Qed.

Lemma readString_short0 c1 c2 atEOF :
  c2 <> [] ->
  readString (c1 ++ c2) c1 atEOF 0 = (length c1, maybeAddEOFError atEOF).
Proof. exact (readString_short c1 c2 [] atEOF). Qed.

Lemma CRLFCRLF_not_digit rest : exists rest', CRLFCRLF ++ rest = CR :: rest' /\ IsDigit CR = false.
Proof. by exists ([LF; CR; LF] ++ rest). Qed.

Lemma digitsValue_nonneg ds : forallb IsDigit ds = true -> 0 <= digitsValue ds.
Proof.
  induction ds as [|d ds IH] using rev_ind; intros Hds; [done|].
  rewrite forallb_app in Hds. apply andb_true_iff in Hds as [Hds Hd].
  simpl in Hd. unfold IsDigit in Hd. rewrite andb_true_r in Hd.
  apply andb_true_iff in Hd as [Hd1 Hd2].
  rewrite digitsValue_snoc. specialize (IH Hds). lia.
Qed.

(** Once a whole header is in the data, the call is decided by the
    number of bytes that follow it. *)
Lemma SplitFunc_header ds avail atEOF :
  ds <> [] -> forallb IsDigit ds = true ->
  len (header ds) + digitsValue ds <= MaxInt ->
  SplitFunc (header ds ++ avail) atEOF
  = if digitsValue ds >? len avail then Ret 0 None (maybeAddEOFError atEOF)
    else Ret (len (header ds) + digitsValue ds)
             (Some (take (Z.to_nat (digitsValue ds)) avail)) None.
Proof.
  intros Hne Hds Hfit. pose proof (digitsValue_nonneg ds Hds) as Hv0.
  set (h := (length ContentLength + length ds + length CRLFCRLF)%nat).
  assert (Hh : len (header ds) = Z.of_nat h).
  { unfold header. rewrite !len_app. unfold len, h. lia. }
  rewrite Hh in *. unfold SplitFunc, header.
  rewrite <- !app_assoc. rewrite readString_match0, drop_app_length.
  destruct (CRLFCRLF_not_digit avail) as (rest' & Hsep & Hcr).
  rewrite Hsep, readDigits_stop by done. rewrite <- Hsep.
  rewrite slice_middle, Atoi_digits by (done || lia).
  pose proof (readString_match CRLFCRLF (ContentLength ++ ds) avail atEOF) as Hsepr.
  rewrite <- app_assoc, length_app in Hsepr. rewrite Hsepr. clear Hsepr.
  fold h.
  assert (Hd : len (ContentLength ++ ds ++ CRLFCRLF ++ avail) = Z.of_nat h + len avail).
  { rewrite !len_app. unfold len, h. lia. }
  rewrite Hd.
  rewrite wrap_small by (unfold MinInt; lia).
  destruct (Z.gtb_spec (digitsValue ds) (len avail)) as [Hgt|Hle].
  - by destruct (Z.gtb_spec (Z.of_nat h + digitsValue ds) (Z.of_nat h + len avail)); [|lia].
  - destruct (Z.gtb_spec (Z.of_nat h + digitsValue ds) (Z.of_nat h + len avail)); [lia|].
    destruct (Z.leb_spec (Z.of_nat h) (Z.of_nat h + digitsValue ds)); [|lia].
    do 2 f_equal. unfold slice.
    replace (ContentLength ++ ds ++ CRLFCRLF ++ avail)
      with ((ContentLength ++ ds ++ CRLFCRLF) ++ avail) by (by rewrite <- !app_assoc).
    replace h with (length (ContentLength ++ ds ++ CRLFCRLF))
      by (rewrite !length_app; unfold h; lia).
    rewrite drop_app_length. f_equal. lia.
Qed.

(** A complete frame at the start of the data is returned as the token,
    whatever follows it and whether or not the input is exhausted; the
    advance count is the length of the frame. *)
Lemma SplitFunc_complete ds body rest atEOF :
  declares ds body ->
  len (header ds ++ body) <= MaxInt ->
  SplitFunc (header ds ++ body ++ rest) atEOF
  = Ret (len (header ds ++ body)) (Some body) None.
Proof.
  intros (Hne & Hds & Hv) Hfit. rewrite len_app in Hfit.
  rewrite SplitFunc_header by (done || lia). rewrite Hv, len_app.
  pose proof (len_nonneg rest).
  destruct (Z.gtb_spec (len body) (len body + len rest)); [lia|].
  rewrite (len_app (header ds) body). do 2 f_equal.
  unfold len. rewrite Nat2Z.id. apply take_app_length.
Qed.

(** The body has not arrived in full. *)
Lemma SplitFunc_wait_body ds b1 b2 atEOF :
  declares ds (b1 ++ b2) -> b2 <> [] ->
  len (header ds ++ b1 ++ b2) <= MaxInt ->
  SplitFunc (header ds ++ b1) atEOF = Ret 0 None (maybeAddEOFError atEOF).
Proof.
  intros (Hne & Hds & Hv) Hb2 Hfit. rewrite len_app in Hfit.
  rewrite SplitFunc_header by (done || lia). rewrite Hv, len_app.
  assert (0 < len b2) by (destruct b2; [done|unfold len; simpl; lia]).
  by destruct (Z.gtb_spec (len b1 + len b2) (len b1)); [|lia].
Qed.

(** The literal has not arrived in full. *)
Lemma SplitFunc_wait_literal c1 c2 atEOF :
  ContentLength = c1 ++ c2 -> c2 <> [] ->
  SplitFunc c1 atEOF = Ret 0 None (maybeAddEOFError atEOF).
Proof.
  intros Hlit Hc2. unfold SplitFunc. rewrite Hlit.
  rewrite readString_short0 by done.
  destruct atEOF; simpl; [done|]. by rewrite drop_all.
Qed.

(** The number may still go on. *)
Lemma SplitFunc_wait_digits ds atEOF :
  forallb IsDigit ds = true ->
  SplitFunc (ContentLength ++ ds) atEOF = Ret 0 None (maybeAddEOFError atEOF).
Proof.
  intros Hds. unfold SplitFunc.
  rewrite readString_match0, drop_app_length.
  by rewrite readDigits_short.
Qed.

(** The separator has not arrived in full: what [SplitFunc] does depends
    on [atEOF] and on the declared length. *)
Lemma SplitFunc_partial_separator ds s1 s2 atEOF :
  ds <> [] -> forallb IsDigit ds = true ->
  len (header ds) + digitsValue ds <= MaxInt ->
  CRLFCRLF = s1 ++ s2 -> s1 <> [] -> s2 <> [] ->
  SplitFunc (ContentLength ++ ds ++ s1) atEOF
  = if atEOF then Ret 0 None (Some ErrExpectedMore)
    else if digitsValue ds =? 0
         then Ret (len (ContentLength ++ ds ++ s1)) (Some []) None
         else Ret 0 None None.
Proof.
  intros Hne Hds Hfit Hsep Hs1 Hs2.
  pose proof (digitsValue_nonneg ds Hds) as Hv0.
  assert (exists s1', s1 = CR :: s1') as [s1' ->].
  { destruct s1 as [|x s1']; [done|]. exists s1'.
    unfold CRLFCRLF in Hsep. simpl in Hsep. congruence. }
  assert (Hl1 : (length (CR :: s1') < length CRLFCRLF)%nat).
  { rewrite Hsep, length_app. destruct s2; [done|]. simpl. lia. }
  unfold SplitFunc.
  rewrite readString_match0, drop_app_length.
  rewrite readDigits_stop by done.
  pose proof (slice_middle ContentLength ds (CR :: s1')) as Hsl. rewrite Hsl. clear Hsl.
  rewrite Atoi_digits by (done || (pose proof (len_nonneg (header ds)); lia)).
  rewrite Hsep.
  pose proof (readString_short (CR :: s1') s2 (ContentLength ++ ds) atEOF Hs2) as Hr.
  rewrite <- app_assoc, length_app in Hr. rewrite Hr. clear Hr.
  destruct atEOF; simpl maybeAddEOFError; cbv iota; [done|].
  set (d := ContentLength ++ ds ++ CR :: s1').
  assert (Hd : len d < len (header ds)).
  { unfold d, header. rewrite !len_app. unfold len. lia. }
  fold (len d). pose proof (len_nonneg d).
  rewrite wrap_small by (unfold MinInt; lia).
  destruct (Z.eqb_spec (digitsValue ds) 0) as [Hz|Hnz].
  - rewrite Hz, Z.add_0_r.
    destruct (Z.gtb_spec (len d) (len d)); [lia|].
    destruct (Z.leb_spec (len d) (len d)); [|lia].
    do 2 f_equal. unfold slice, len. rewrite Nat2Z.id, Nat.sub_diag. apply take_0.
  - by destruct (Z.gtb_spec (len d + digitsValue ds) (len d)); [|lia].
Qed.

(** *** Incomplete frames *)

Lemma forallb_app_l (f : Z -> bool) (a b : list Z) :
  forallb f (a ++ b) = true -> forallb f a = true.
Proof. rewrite forallb_app. by intros [? _]%andb_true_iff. Qed.

Lemma prefix_cut ds body d more :
  d ++ more = header ds ++ body -> more <> [] -> cut ds body d.
Proof.
  intros Heq Hmore. unfold header in Heq. rewrite <- !app_assoc in Heq.
  apply app_eq_app in Heq as [l [[-> Heq]|[Hlit ->]]].
  - apply app_eq_app in Heq as [l2 [[Hds ->]|[-> Heq]]].
    + by apply (cut_digits _ _ _ l l2).
    + apply app_eq_app in Heq as [l3 [[Hsep ->]|[-> Heq]]].
      * destruct l2 as [|x l2].
        { apply (cut_digits _ _ _ ds []); by rewrite app_nil_r. }
        destruct l3 as [|y l3].
        { rewrite app_nil_r in Hsep. simpl in Hmore.
          apply (cut_body _ _ _ [] body); [done|done|].
          unfold header. by rewrite <- Hsep, <- !app_assoc, app_nil_r. }
        by apply (cut_separator _ _ _ (x :: l2) (y :: l3)).
      * apply (cut_body _ _ _ l3 more); [done..|].
        unfold header. by rewrite <- !app_assoc.
  - destruct l as [|x l].
    + apply (cut_digits _ _ _ [] ds); [done|].
      rewrite app_nil_r in Hlit. by rewrite Hlit, app_nil_r.
    + by apply (cut_literal _ _ _ (x :: l)).
Qed.

(** A proper prefix of a frame, input exhausted: the truncation error. *)
Lemma SplitFunc_truncated ds body d more :
  declares ds body -> len (header ds ++ body) <= MaxInt ->
  d ++ more = header ds ++ body -> more <> [] ->
  SplitFunc d true = Ret 0 None (Some ErrExpectedMore).
Proof.
  intros (Hne & Hds & Hv) Hfit Heq Hmore.
  assert (Hfit' : len (header ds) + digitsValue ds <= MaxInt)
    by (rewrite len_app in Hfit; lia).
  destruct (prefix_cut _ _ _ _ Heq Hmore)
    as [c2 Hc Hc2|ds1 ds2 -> ->|s1 s2 Hs Hs1 Hs2 ->|b1 b2 -> Hb2 ->].
  - by rewrite (SplitFunc_wait_literal d c2).
  - rewrite SplitFunc_wait_digits; [done|]. by eapply forallb_app_l.
  - by rewrite (SplitFunc_partial_separator ds s1 s2).
  - by rewrite (SplitFunc_wait_body ds b1 b2).
Qed.

(** A proper prefix of a frame, more input possible: no token and no
    error, provided the frame has a body or the prefix ends before the
    separator. *)
Lemma SplitFunc_waits ds body d more :
  declares ds body -> len (header ds ++ body) <= MaxInt ->
  d ++ more = header ds ++ body -> more <> [] ->
  body <> [] \/ (length d <= length (ContentLength ++ ds))%nat ->
  SplitFunc d false = Ret 0 None None.
Proof.
  intros (Hne & Hds & Hv) Hfit Heq Hmore Hside.
  assert (Hfit' : len (header ds) + digitsValue ds <= MaxInt)
    by (rewrite len_app in Hfit; lia).
  destruct (prefix_cut _ _ _ _ Heq Hmore)
    as [c2 Hc Hc2|ds1 ds2 -> ->|s1 s2 Hs Hs1 Hs2 ->|b1 b2 -> Hb2 ->].
  - by rewrite (SplitFunc_wait_literal d c2).
  - rewrite SplitFunc_wait_digits; [done|]. by eapply forallb_app_l.
  - rewrite (SplitFunc_partial_separator ds s1 s2) by done.
    destruct (Z.eqb_spec (digitsValue ds) 0) as [Hz|]; [|done].
    destruct Hside as [Hbody|Hlen].
    + destruct body; [done|]. unfold len in Hv. simpl in Hv. lia.
    + rewrite !length_app in Hlen. destruct s1; [done|]. simpl in Hlen. lia.
  - by rewrite (SplitFunc_wait_body ds b1 b2).
Qed.

(** *** Scanning a stream of frames *)

Lemma SplitFunc_frame body rest atEOF :
  fits body ->
  SplitFunc (frame body ++ rest) atEOF = Ret (len (frame body)) (Some body) None.
Proof.
  unfold fits. rewrite frame_header, <- app_assoc. intros Hfit.
  apply SplitFunc_complete; [apply FormatInt_declares|done].
Qed.

Lemma stream_cons p ps : stream (p :: ps) = frame p ++ stream ps.
Proof. done. Qed.

Lemma frame_nonempty body : frame body <> [].
Proof. by unfold frame. Qed.

Lemma frame_length_pos body : (0 < length (frame body))%nat.
Proof. pose proof (frame_nonempty body). destruct (frame body); [done|simpl; lia]. Qed.

Lemma scanBuffer_token fuel body rest atEOF :
  fits body ->
  scanBuffer (S fuel) (frame body ++ rest) atEOF
  = let '(ts, e) := scanBuffer fuel rest atEOF in (body :: ts, e).
Proof.
  intros Hfit.
  change (scanBuffer (S fuel) (frame body ++ rest) atEOF) with
    (if negb atEOF && bool_decide (frame body ++ rest = []) then ([], NeedInput (frame body ++ rest))
     else match SplitFunc (frame body ++ rest) atEOF with
      | Panic => ([], Panicked)
      | Ret _ _ (Some e) => ([], Stopped (Some (SplitError e)))
      | Ret advance token None =>
        if advance <? 0 then ([], Stopped (Some ErrNegativeAdvance))
        else if len (frame body ++ rest) <? advance then ([], Stopped (Some ErrAdvanceTooFar))
        else
          let buf' := drop (Z.to_nat advance) (frame body ++ rest) in
          match token with
          | Some t => let '(ts, e) := scanBuffer fuel buf' atEOF in (t :: ts, e)
          | None => if atEOF then ([], Stopped None) else ([], NeedInput buf')
          end
      end).
  rewrite bool_decide_eq_false_2, andb_false_r
    by (pose proof (frame_nonempty body); by destruct (frame body)).
  rewrite SplitFunc_frame by done.
  pose proof (len_nonneg (frame body)). pose proof (len_nonneg rest).
  destruct (Z.ltb_spec (len (frame body)) 0); [lia|].
  rewrite len_app.
  destruct (Z.ltb_spec (len (frame body) + len rest) (len (frame body))); [lia|].
  cbv zeta. unfold len at 1. by rewrite Nat2Z.id, drop_app_length.
Qed.

Lemma scanBuffer_wait fuel d :
  SplitFunc d false = Ret 0 None None ->
  scanBuffer (S fuel) d false = ([], NeedInput d).
Proof.
  intros Hw. simpl. rewrite Hw. case_bool_decide; [done|]. simpl.
  by destruct (Z.ltb_spec (len d) 0); [pose proof (len_nonneg d); lia|].
Qed.

(** Scanning what has arrived of a stream of frames with bodies, before
    the end of input: the frames that arrived in full are delivered and
    the rest is kept for the next read. *)
Lemma scanBuffer_frames payloads : forall d more fuel,
  Forall (fun p => p <> [] /\ fits p) payloads ->
  d ++ more = stream payloads ->
  (length d < fuel)%nat ->
  exists k d',
    scanBuffer fuel d false = (take k payloads, NeedInput d')
    /\ d' ++ more = stream (drop k payloads).
Proof.
  induction payloads as [|p ps IH]; intros d more fuel Hgood Heq Hfuel.
  - apply app_eq_nil in Heq as [-> ->]. exists 0%nat, [].
    destruct fuel; [lia|]. done.
  - apply Forall_cons in Hgood as [[Hp Hfit] Hgood].
    destruct fuel as [|fuel]; [lia|].
    rewrite stream_cons in Heq.
    assert (Hcase : (exists l, d = frame p ++ l /\ stream ps = l ++ more)
                    \/ (exists l, frame p = d ++ l /\ l <> [] /\ more = l ++ stream ps)).
    { apply app_eq_app in Heq as [l [[-> ?]|[Hfr ->]]]; [left; eauto|].
      destruct l as [|x l]; [|right; by exists (x :: l)].
      left. exists []. rewrite app_nil_r in Hfr. by rewrite Hfr, app_nil_r. }
    destruct Hcase as [(l & -> & Hrest)|(l & Hfr & Hl & ->)].
    + rewrite scanBuffer_token by done.
      destruct (IH l more fuel Hgood (eq_sym Hrest)) as (k & d' & Hscan & Hd').
      { rewrite length_app in Hfuel. pose proof (frame_length_pos p). lia. }
      exists (S k), d'. rewrite Hscan. done.
    + exists 0%nat, d. split.
      * apply scanBuffer_wait.
        apply (SplitFunc_waits (FormatInt (len p)) p d l);
          [apply FormatInt_declares|by rewrite <- frame_header
          |by rewrite <- frame_header|done|by left].
      * rewrite drop_0, stream_cons. by rewrite Hfr, <- app_assoc.
Qed.

(** Scanning whole frames once the input is exhausted: every payload is
    delivered, and the call on the empty rest ends the scan with the
    truncation error. *)
Lemma scanBuffer_frames_eof payloads : forall fuel,
  Forall fits payloads ->
  (length (stream payloads) < fuel)%nat ->
  scanBuffer fuel (stream payloads) true
  = (payloads, Stopped (Some (SplitError ErrExpectedMore))).
Proof.
  induction payloads as [|p ps IH]; intros fuel Hgood Hfuel.
  - destruct fuel; [simpl in Hfuel; lia|]. done.
  - apply Forall_cons in Hgood as [Hfit Hgood].
    destruct fuel as [|fuel]; [lia|].
    rewrite stream_cons in *.
    rewrite scanBuffer_token by done. rewrite IH; [done..|].
    rewrite length_app in Hfuel. pose proof (frame_length_pos p). lia.
Qed.

Lemma scanChunks_nil final buf :
  scanChunks [] final buf
  = scanBuffer (S (length (buf ++ final))) (buf ++ final) true.
Proof. done. Qed.

Lemma scanChunks_cons c chunks final buf :
  scanChunks (c :: chunks) final buf
  = let '(ts, e) := scanBuffer (S (length (buf ++ c))) (buf ++ c) false in
    match e with
    | NeedInput buf' =>
      let '(ts', e') := scanChunks chunks final buf' in (ts ++ ts', e')
    | _ => (ts, e)
    end.
Proof. done. Qed.

Lemma scanChunks_frames chunks final : forall buf payloads,
  Forall (fun p => p <> [] /\ fits p) payloads ->
  buf ++ concat chunks ++ final = stream payloads ->
  scanChunks chunks final buf
  = (payloads, Stopped (Some (SplitError ErrExpectedMore))).
Proof.
  induction chunks as [|c chunks IH]; intros buf payloads Hgood Heq.
  - rewrite scanChunks_nil. simpl in Heq. rewrite Heq.
    apply scanBuffer_frames_eof; [|lia].
    eapply Forall_impl; [exact Hgood|]. by intros ? [_ ?].
  - rewrite scanChunks_cons. simpl in Heq.
    destruct (scanBuffer_frames payloads (buf ++ c) (concat chunks ++ final)
                (S (length (buf ++ c))) Hgood) as (k & d' & Hscan & Hd').
    { by rewrite <- app_assoc, <- Heq, <- app_assoc. }
    { lia. }
    rewrite Hscan. rewrite (IH d' (drop k payloads)); [|by apply Forall_drop|done].
    by rewrite take_drop.
Qed.

(** Frames with non-empty payloads, concatenated and delivered in any
    pieces, are decoded to the original payloads in order. *)
Theorem scanStream_roundtrip_nonempty payloads chunks final :
  Forall (fun p => p <> [] /\ fits p) payloads ->
  concat chunks ++ final = stream payloads ->
  scanStream chunks final
  = (payloads, Stopped (Some (SplitError ErrExpectedMore))).
Proof. intros Hgood Heq. by apply scanChunks_frames. Qed.

(** *** The literal prefix *)

(** C7.  Whenever some byte of the data disagrees with the byte of the
    literal [Content-Length: ] at the same position, [SplitFunc] returns
    an unexpected-token error in that very call, with no token and no
    advance, whether or not the input is exhausted. *)
Theorem SplitFunc_literal_mismatch data atEOF k b c :
  data !! k = Some b -> ContentLength !! k = Some c -> b <> c ->
  exists b', SplitFunc data atEOF = Ret 0 None (Some (ErrUnexpectedToken b')).
Proof.
  intros Hb Hc Hne. unfold SplitFunc.
  destruct (readString_mismatch ContentLength atEOF data 0 k b c Hb Hc Hne)
    as (i' & b' & ->).
  by exists b'.
Qed.

Lemma SplitFunc_literal_mismatch_witness :
  (bytes "Content-Type: 3") !! 8%nat = Some 84
  /\ ContentLength !! 8%nat = Some 76
  /\ 84 <> 76
  /\ exists b', SplitFunc (bytes "Content-Type: 3") false
                = Ret 0 None (Some (ErrUnexpectedToken b')).
Proof.
  split; [reflexivity|]. split; [reflexivity|]. split; [lia|].
  apply (SplitFunc_literal_mismatch (bytes "Content-Type: 3") false 8%nat 84 76);
    [reflexivity|reflexivity|lia].
Defined.

(** *** The separator of an empty frame *)

(** C8, at the input where the code departs from it.  The data
    [Content-Length: 0\r] is a proper prefix of the frame of the empty
    payload, and more input may arrive; [SplitFunc] does not wait: it
    returns an empty token and advances over the 18 bytes. *)
Theorem SplitFunc_premature_empty_token :
  (bytes "Content-Length: 0" ++ [CR]) ++ [LF; CR; LF] = frame []
  /\ SplitFunc (bytes "Content-Length: 0" ++ [CR]) false = Ret 18 (Some []) None.
Proof. split; by vm_compute. Qed.

(** C2, at an input where the code departs from it.  The frames of the
    empty payload and of [abc], delivered one byte at a time or in two
    pieces that part inside the first separator: the scan delivers the
    empty payload, then stops with an error, and [abc] is lost. *)
Theorem scanStream_empty_payload_split :
  let payloads := [[]; bytes "abc"] in
  let bytewise := map (fun b => [b]) (stream payloads) in
  let pieces := [bytes "Content-Length: 0" ++ [CR];
                 [LF; CR; LF] ++ frame (bytes "abc")] in
  concat bytewise = stream payloads
  /\ concat pieces = stream payloads
  /\ scanStream bytewise []
     = ([[]], Stopped (Some (SplitError (ErrUnexpectedToken LF))))
  /\ scanStream pieces []
     = ([[]], Stopped (Some (SplitError (ErrUnexpectedToken LF)))).
Proof. repeat split; by vm_compute. Qed.

End jsonrpc_facts.

(** ** The language-server channel *)

Module channel_facts.
Import jsonrpc uri channel.

Section codecs.
Context `{Marshaler JSONRPCHeader} `{Marshaler LsInitializeParams}
        `{Unmarshaler JSONRPCHeader}.

(** *** What each function leaves alone *)

Lemma rawWriteMsg_table method params id w l :
  onResponse (rawWriteMsg method params id w l) = onResponse l
  /\ nextRequestID (rawWriteMsg method params id w l) = nextRequestID l
  /\ calls (rawWriteMsg method params id w l) = calls l.
Proof.
  unfold rawWriteMsg, marshalToWriter, calls.
  destruct (err l); [|destruct w]; simpl; rewrite ?omap_app; simpl;
    by rewrite ?app_nil_r.
Qed.

Lemma rawWriteMsg_terminal method params id w l e :
  err l = Some e ->
  rawWriteMsg method params id w l = emit (Logged (LogWriteWhileError e)) l.
Proof. intros He. unfold rawWriteMsg. by rewrite He. Qed.

Lemma rawWriteMsg_err_stays method params id w l :
  err l <> None -> err (rawWriteMsg method params id w l) <> None.
Proof.
  intros He. unfold rawWriteMsg.
  destruct (err l) eqn:E; [simpl; by rewrite E|done].
Qed.

Lemma call_fields h json l :
  onResponse (call h json l) = onResponse l
  /\ nextRequestID (call h json l) = nextRequestID l
  /\ err (call h json l) = err l
  /\ calls (call h json l) = calls l ++ [(h, json)]
  /\ publications (call h json l) = publications l
  /\ written (call h json l) = written l.
Proof.
  unfold call, calls, publications, written.
  destruct h; simpl; rewrite ?omap_app; simpl; by rewrite ?app_nil_r.
Qed.

Lemma stdoutReader_token_fields token l :
  onResponse (stdoutReader_token token l) = onResponse l
  /\ nextRequestID (stdoutReader_token token l) = nextRequestID l
  /\ err (stdoutReader_token token l) = err l
  /\ publications (stdoutReader_token token l) = publications l
  /\ written (stdoutReader_token token l) = written l.
Proof.
  unfold stdoutReader_token.
  destruct (ID _ >=? 0); [|done].
  destruct (onResponse l !! _) as [h|].
  - by destruct (call_fields h (Params (UnmarshalJSON token (mkHeader [] [] (-1) []))) l)
      as (-> & -> & -> & _ & -> & ->).
  - unfold publications, written. simpl. rewrite !omap_app. simpl.
    by rewrite !app_nil_r.
Qed.

Lemma stdoutReader_tokens_fields tokens : forall l,
  let l' := fold_left (fun l token => stdoutReader_token token l) tokens l in
  onResponse l' = onResponse l /\ err l' = err l
  /\ publications l' = publications l /\ written l' = written l.
Proof.
  induction tokens as [|t tokens IH]; intros l; simpl; [done|].
  destruct (IH (stdoutReader_token t l)) as (E1 & E2 & E3 & E4).
  destruct (stdoutReader_token_fields t l) as (F1 & _ & F2 & F3 & F4).
  by rewrite E1, E2, E3, E4, F1, F2, F3, F4.
Qed.

(** *** The terminal error is never cleared *)

Lemma stderrReader_err_stays reads : forall l,
  err l <> None -> err (fst (stderrReader reads l)) <> None.
Proof.
  induction reads as [|[data [e|]] reads IH]; intros l He; simpl; [done..|].
  by apply IH.
Qed.

Lemma runOp_err_stays o l : err l <> None -> err (runOp o l) <> None.
Proof.
  intros He. destruct o; simpl.
  - unfold writeRequest. by apply rawWriteMsg_err_stays.
  - unfold writeNotification. by apply rawWriteMsg_err_stays.
  - by destruct (stdoutReader_token_fields token l) as (_ & _ & -> & _).
  - by destruct scanErr.
  - by apply stderrReader_err_stays.
Qed.

Lemma runOps_err_stays ops : forall l,
  err l <> None -> err (runOps ops l) <> None.
Proof.
  induction ops as [|o ops IH]; intros l He; [done|].
  apply IH. by apply runOp_err_stays.
Qed.

(** *** The diagnostic reader *)

Lemma stderrReader_returns reads : forall l l' returned,
  stderrReader reads l = (l', returned) ->
  returned = bool_decide (firstError reads <> None)
  /\ (returned = true -> err l' = firstError reads
                         /\ publications l' = (publications l + 2)%nat).
Proof.
  induction reads as [|[data [e|]] reads IH]; intros l l' returned Hrun;
    simpl in Hrun.
  - by injection Hrun as <- <-.
  - injection Hrun as <- <-. split; [done|]. intros _. split; [done|].
    unfold publications. simpl. rewrite !omap_app, !length_app. simpl. lia.
  - apply IH in Hrun as [-> Hret]. split; [done|]. intros Hr.
    destruct (Hret Hr) as [-> ->]. split; [done|].
    unfold publications. simpl. rewrite omap_app. simpl. by rewrite app_nil_r.
Qed.

(** *** Request identifiers and the table of handlers *)

Lemma writeRequest_fields method params handler w l :
  let l' := writeRequest method params handler w l in
  nextRequestID l' = wrap (nextRequestID l + 1)
  /\ onResponse l'
     = <[nextRequestID l := handlerOf (method, params, handler, w)]> (onResponse l)
  /\ calls l' = calls l.
Proof.
  unfold writeRequest.
  match goal with |- context [rawWriteMsg ?m ?p ?i ?w ?x] =>
    destruct (rawWriteMsg_table m p i w x) as (E1 & E2 & E3) end.
  cbv zeta. rewrite E1, E2, E3. by destruct handler.
Qed.

Lemma writeRequests_cons r reqs l :
  writeRequests (r :: reqs) l
  = writeRequests reqs
      (let '(method, params, handler, w) := r in writeRequest method params handler w l).
Proof. done. Qed.

(** After [reqs] were issued from a handle whose counter stood at [n],
    the ids [n], [n+1], ... hold the handlers of the requests in order,
    and every other entry of the table is as before. *)
Lemma writeRequests_table reqs : forall l,
  0 <= nextRequestID l ->
  nextRequestID l + Z.of_nat (length reqs) <= MaxInt ->
  let n := nextRequestID l in
  let l' := writeRequests reqs l in
  nextRequestID l' = n + Z.of_nat (length reqs)
  /\ calls l' = calls l
  /\ forall z, onResponse l' !! z
               = if (n <=? z) && (z <? n + Z.of_nat (length reqs))
                 then handlerOf <$> reqs !! Z.to_nat (z - n)
                 else onResponse l !! z.
Proof.
  induction reqs as [|r reqs IH]; intros l Hn Hfit; cbv zeta.
  - simpl. split; [lia|]. split; [done|]. intros z.
    by destruct (Z.leb_spec (nextRequestID l) z),
                (Z.ltb_spec z (nextRequestID l + Z.of_nat 0)); try lia.
  - rewrite writeRequests_cons. destruct r as [[[method params] handler] w].
    destruct (writeRequest_fields method params handler w l) as (E1 & E2 & E3).
    cbv zeta in E1, E2, E3.
    simpl length in *. rewrite Nat2Z.inj_succ in *.
    assert (Hw : wrap (nextRequestID l + 1) = nextRequestID l + 1)
      by (apply wrap_small; unfold MinInt; lia).
    rewrite Hw in E1.
    destruct (IH (writeRequest method params handler w l)) as (F1 & F2 & F3);
      [lia|lia|]. cbv zeta in F1, F2, F3.
    rewrite F1, F2, E1, E3. split; [lia|]. split; [done|]. intros z.
    rewrite F3, E1, E2. set (n := nextRequestID l).
    destruct (Z.leb_spec (n + 1) z), (Z.ltb_spec z (n + 1 + Z.of_nat (length reqs)));
      destruct (Z.leb_spec n z), (Z.ltb_spec z (n + Z.succ (Z.of_nat (length reqs))));
      simpl; try lia;
      first [ rewrite lookup_insert_ne by lia; done
            | assert (z = n) as -> by lia;
              rewrite lookup_insert_eq, Z.sub_diag; done
            | replace (Z.to_nat (z - n)) with (S (Z.to_nat (z - (n + 1)))) by lia;
              done ].
Qed.

(** What [stdoutReader] does with one token, on any handle. *)
Lemma stdoutReader_token_calls token l :
  calls (stdoutReader_token token l)
  = calls l ++ (if ID (decoded token) >=? 0 then
                  match onResponse l !! ID (decoded token) with
                  | Some h => [(h, Params (decoded token))]
                  | None => []
                  end
                else []).
Proof.
  unfold stdoutReader_token, decoded.
  destruct (ID _ >=? 0); [|by rewrite app_nil_r].
  destruct (onResponse l !! _) as [h|].
  - by destruct (call_fields h (Params (UnmarshalJSON token (mkHeader [] [] (-1) []))) l)
      as (_ & _ & _ & -> & _).
  - unfold calls. simpl. rewrite omap_app. done.
Qed.

(** C1, as the code has it.  On a handle on which [reqs] were issued
    from the start, a response whose id is that of the i-th request
    calls the handler registered with that request, once, with the
    params of the response; a response whose id is negative or belongs
    to no request calls nothing; the table of handlers is left as it
    was, so a second response with the same id calls the same handler
    again. *)
Theorem response_calls_registered_handler reqs exe dir token :
  Z.of_nat (length reqs) <= MaxInt ->
  let l := writeRequests reqs (fresh exe dir) in
  let l' := stdoutReader_token token l in
  let expected :=
    if ID (decoded token) >=? 0 then
      match reqs !! Z.to_nat (ID (decoded token)) with
      | Some r => [(handlerOf r, Params (decoded token))]
      | None => []
      end
    else [] in
  calls l' = calls l ++ expected
  /\ onResponse l' = onResponse l
  /\ calls (stdoutReader_token token l') = calls l ++ expected ++ expected.
Proof.
  intros Hfit. cbv zeta.
  destruct (writeRequests_table reqs (fresh exe dir)) as (_ & _ & Htab);
    [done|simpl; lia|]. cbv zeta in Htab. simpl nextRequestID in Htab.
  set (l := writeRequests reqs (fresh exe dir)) in *.
  destruct (stdoutReader_token_fields token l) as (Eon & _).
  assert (Hcalls : forall l0, onResponse l0 = onResponse l ->
    calls (stdoutReader_token token l0)
    = calls l0 ++
      (if ID (decoded token) >=? 0 then
         match reqs !! Z.to_nat (ID (decoded token)) with
         | Some r => [(handlerOf r, Params (decoded token))]
         | None => []
         end
       else [])).
  { intros l0 E0. rewrite stdoutReader_token_calls, E0. f_equal.
    destruct (Z.geb_spec (ID (decoded token)) 0) as [Hge|Hlt]; [|done].
    rewrite Htab, Z.sub_0_r. simpl.
    destruct (Z.leb_spec 0 (ID (decoded token))); [|lia]. simpl.
    destruct (Z.ltb_spec (ID (decoded token)) (0 + Z.of_nat (length reqs))) as [Hin|Hout].
    - by destruct (reqs !! Z.to_nat (ID (decoded token))).
    - rewrite (lookup_ge_None_2 reqs) by lia. done. }
  split; [by apply Hcalls|]. split; [done|].
  rewrite (Hcalls _ Eon), (Hcalls l eq_refl). by rewrite <- app_assoc.
Qed.

(** C3, as the code has it.  Once the terminal error of a handle is
    set, no operation on the handle clears it; a reader that ends with
    an error stores its own error, whatever was stored before; and the
    reader of the output stream publishes the handle exactly once. *)
Theorem terminal_error_set_once ops l :
  (err l <> None -> err (runOps ops l) <> None)
  /\ (forall tokens e, err (stdoutReader tokens (Some e) l) = Some e)
  /\ (forall reads l', stderrReader reads l = (l', true) ->
                       err l' = firstError reads /\ err l' <> None)
  /\ (forall tokens scanErr,
        publications (stdoutReader tokens scanErr l) = (publications l + 1)%nat).
Proof.
  split; [apply runOps_err_stays|]. split; [done|]. split.
  - intros reads l' Hrun.
    destruct (stderrReader_returns reads l l' true Hrun) as [Hret Herr].
    destruct (Herr eq_refl) as [-> _]. split; [done|].
    symmetry in Hret. by apply bool_decide_eq_true in Hret.
  - intros tokens scanErr. unfold stdoutReader, stdoutReader_end.
    destruct (stdoutReader_tokens_fields tokens l) as (_ & _ & Hp & _).
    cbv zeta in Hp. rewrite <- Hp.
    unfold publications. destruct scanErr; simpl; rewrite omap_app, length_app;
      simpl; lia.
Qed.

(** C4, as the code has it.  On a handle whose terminal error is set,
    [writeRequest] writes nothing, publishes nothing, calls no handler
    and leaves the error as it is: it logs the attempt.  It still takes
    the next id and stores the handler under it. *)
Theorem writeRequest_terminal method params handler w l e :
  err l = Some e ->
  let l' := writeRequest method params handler w l in
  err l' = Some e
  /\ trace l' = trace l ++ [Logged (LogWriteWhileError e)]
  /\ written l' = written l
  /\ publications l' = publications l
  /\ calls l' = calls l
  /\ nextRequestID l' = wrap (nextRequestID l + 1)
  /\ onResponse l'
     = <[nextRequestID l := handlerOf (method, params, handler, w)]> (onResponse l).
Proof.
  intros He. cbv zeta. unfold writeRequest.
  rewrite (rawWriteMsg_terminal _ _ _ _ _ e) by done.
  unfold written, publications, calls. simpl. rewrite !omap_app. simpl.
  rewrite !app_nil_r. by destruct handler.
Qed.

(** C10.  When the reader of the diagnostic stream returns, the
    terminal error of the handle is the error of the read that failed,
    so it is set: after an end of stream it is [io.EOF].  No later
    operation on the handle clears it. *)
Theorem stderrReader_records_error reads l l' :
  stderrReader reads l = (l', true) ->
  (exists e, firstError reads = Some e /\ err l' = Some e)
  /\ (firstError reads = Some EOF -> err l' = Some EOF)
  /\ forall ops, err (runOps ops l') <> None.
Proof.
  intros Hrun.
  destruct (stderrReader_returns reads l l' true Hrun) as [Hret Herr].
  destruct (Herr eq_refl) as [E _].
  symmetry in Hret. apply bool_decide_eq_true in Hret.
  destruct (firstError reads) as [e|] eqn:Hfirst; [|done].
  split; [by exists e|]. split; [by intros [= ->]|].
  intros ops. apply runOps_err_stays. by rewrite E.
Qed.

(** The reader returns exactly when some read fails. *)
Lemma stderrReader_returns_iff reads l :
  snd (stderrReader reads l) = true <-> firstError reads <> None.
Proof.
  destruct (stderrReader reads l) as [l' r] eqn:Hrun.
  destruct (stderrReader_returns reads l l' r Hrun) as [-> _]. simpl.
  apply bool_decide_eq_true.
Qed.

(** *** The reader of the output stream at a clean end of stream *)

(** When the worker closes its output after whole frames with
    payloads, the scan ends in the truncation error of the call on the
    empty rest, and that error becomes the terminal error. *)
Lemma stdoutReader_stream_clean_close payloads chunks final l :
  Forall (fun p => p <> [] /\ fits p) payloads ->
  concat chunks ++ final = stream payloads ->
  exists l', stdoutReader_stream chunks final l = Some l'
             /\ err l' = Some (ErrScan (SplitError ErrExpectedMore))
             /\ publications l' = (publications l + 1)%nat.
Proof.
  intros Hgood Heq. unfold stdoutReader_stream.
  rewrite (jsonrpc_facts.scanStream_roundtrip_nonempty payloads chunks final Hgood Heq).
  eexists. split; [done|]. split; [done|].
  unfold stdoutReader, stdoutReader_end.
  destruct (stdoutReader_tokens_fields payloads l) as (_ & _ & Hp & _).
  cbv zeta in Hp. rewrite <- Hp. unfold publications. simpl.
  rewrite omap_app, length_app. simpl. lia.
Qed.

(** *** Starting a language server *)

Lemma startLanguageServer_blank env bin directory initOpts :
  Parse env bin = inl [] ->
  startLanguageServer env bin directory initOpts = Panics.
Proof. intros Hparse. unfold startLanguageServer. by rewrite Hparse. Qed.

(** C5, at the inputs where the code departs from it.  When the
    tokenizer finds no word in the command line and reports no error,
    as it does for an empty or blank line, [startLanguageServer] indexes
    the empty word list and panics. *)
Theorem startLanguageServer_no_words_panics env bin directory initOpts :
  Parse env bin = inl [] ->
  startLanguageServer env bin directory initOpts = Panics.
Proof. apply startLanguageServer_blank. Qed.

(** With at least one word in the command line, or a tokenizer error,
    [startLanguageServer] returns a handle or an error. *)
Lemma startLanguageServer_returns env bin directory initOpts :
  Parse env bin <> inl [] ->
  (exists l, startLanguageServer env bin directory initOpts = Started l)
  \/ (exists e, startLanguageServer env bin directory initOpts = Failed e).
Proof.
  intros Hparse. unfold startLanguageServer.
  destruct (Parse env bin) as [[|exe0 exe]|e]; [done| |eauto].
  destruct (StdinPipe env), (StdoutPipe env), (StderrPipe env), (Start env); eauto.
Qed.

End codecs.

End channel_facts.

(** ** Paths to URIs *)

Module uri_facts.
Import uri.

Lemma m_lookup c : m !! c = tableEscape c.
Proof.
  unfold m, tableEscape. simpl list_to_map.
  repeat match goal with
         | |- context [c =? ?k] =>
           destruct (Z.eqb_spec c k) as [->|?];
           [by vm_compute|rewrite lookup_insert_ne by done]
         end.
  apply lookup_empty.
Qed.

(** The loop of [pathToURI] appends one piece per rune. *)
Lemma result_loop (l : list Z) : forall acc,
  fold_left (fun result c => match m !! c with
                             | Some escaped => result ++ escaped
                             | None => result ++ EncodeRune c
                             end) l acc
  = acc ++ flat_map (fun c => match m !! c with
                              | Some escaped => escaped
                              | None => EncodeRune c
                              end) l.
Proof.
  induction l as [|c l IH]; intros acc; cbn [fold_left flat_map];
    [by rewrite app_nil_r|].
  rewrite IH. destruct (m !! c); by rewrite <- app_assoc.
Qed.

Lemma flat_map_flat_map {A} (f : A -> list Z) (g : Z -> list Z) (l : list A) :
  flat_map g (flat_map f l) = flat_map (fun x => flat_map g (f x)) l.
Proof.
  induction l as [|x l IH]; simpl; [done|].
  by rewrite flat_map_app, IH.
Qed.

Lemma Replace_backslash s : Replace s (bytes "\") (bytes "/") = flat_map slash s.
Proof.
  unfold Replace. induction s as [|b s IH]; [done|].
  change (ReplaceFrom (bytes "\") (bytes "/") 0 (b :: s))
    with (if bool_decide ([b] = [92])
          then bytes "/" ++ ReplaceFrom (bytes "\") (bytes "/") 0 s
          else b :: ReplaceFrom (bytes "\") (bytes "/") 0 s).
  rewrite IH.
  change (flat_map slash (b :: s)) with (slash b ++ flat_map slash s).
  assert (slash b = if bool_decide ([b] = [92]) then bytes "/" else [b]) as ->.
  { unfold slash. repeat case_bool_decide; congruence. }
  by destruct (bool_decide ([b] = [92])).
Qed.

Lemma EncodeRune_bytes c :
  inRange 0 127 c = false -> Forall (fun b => 128 <= b) (EncodeRune c).
Proof.
  unfold EncodeRune, inRange. intros ->.
  destruct (Z.leb_spec 128 c), (Z.leb_spec c 2047); simpl.
  1:{ repeat constructor; Z.div_mod_to_equations; lia. }
  all: destruct (Z.ltb_spec c 0), (Z.ltb_spec 1114111 c),
         (Z.leb_spec 55296 c), (Z.leb_spec c 57343); simpl;
       try (repeat constructor; lia);
       destruct (Z.ltb_spec c 65536);
       repeat constructor; Z.div_mod_to_equations; lia.
Qed.

Lemma slash_high (s : list Z) : Forall (fun b => 128 <= b) s -> flat_map slash s = s.
Proof.
  induction 1 as [|b s Hb _ IH]; [done|]. simpl. rewrite IH.
  unfold slash. case_bool_decide; [lia|done].
Qed.

(** One rune of the path, through the table and the replacement. *)
Lemma escape_one c :
  flat_map slash (match m !! c with
                  | Some escaped => escaped
                  | None => EncodeRune c
                  end) = escapeChar c.
Proof.
  rewrite m_lookup. unfold tableEscape, escapeChar, reserved.
  destruct (Z.eqb_spec c 92) as [->|Hbs]; [by vm_compute|].
  repeat match goal with
         | |- context [c =? ?k] =>
           destruct (Z.eqb_spec c k) as [->|?]; [by vm_compute|]
         end.
  destruct (inRange 0 127 c) eqn:Hr.
  - unfold EncodeRune. rewrite Hr. simpl. unfold slash.
    case_bool_decide; [done|]. done.
  - apply slash_high, EncodeRune_bytes, Hr.
Qed.

(** [pathToURI] applies the rule of the specification to every
    character of the path. *)
Lemma pathToURI_chars path :
  pathToURI path = bytes "file://" ++ flat_map escapeChar (runes path).
Proof.
  unfold pathToURI. f_equal.
  rewrite Replace_backslash.
  transitivity (flat_map slash
                  (flat_map (fun c => match m !! c with
                                      | Some escaped => escaped
                                      | None => EncodeRune c
                                      end) (runes path))).
  - by rewrite result_loop.
  - rewrite flat_map_flat_map. apply flat_map_ext. intros c. apply escape_one.
Qed.

(** *** Paths that are valid UTF-8 *)

Lemma reserved_high c : 128 <= c -> reserved c = None.
Proof.
  intros Hc. unfold reserved.
  repeat match goal with
         | |- context [c =? ?k] => destruct (Z.eqb_spec c k) as [->|?]; [lia|]
         end.
  done.
Qed.

Lemma escapeChar_high c : 128 <= c -> escapeChar c = EncodeRune c.
Proof. intros Hc. unfold escapeChar. by rewrite reserved_high. Qed.

Lemma escapeByte_high (s : list Z) :
  Forall (fun b => 128 <= b) s -> flat_map escapeByte s = s.
Proof.
  induction 1 as [|b s Hb _ IH]; [done|]. simpl. rewrite IH.
  unfold escapeByte. by rewrite reserved_high.
Qed.

Lemma escapeChar_ascii b : inRange 0 127 b = true -> escapeChar b = escapeByte b.
Proof.
  intros Hb. unfold escapeChar, escapeByte, EncodeRune. by rewrite Hb.
Qed.

Ltac split_ranges :=
  unfold inRange in *;
  repeat match goal with
         | H : _ && _ = true |- _ => apply andb_true_iff in H as [? ?]
         | H : (_ <=? _) = true |- _ => apply Z.leb_le in H
         | H : (_ =? _) = true |- _ => apply Z.eqb_eq in H
         | H : (_ =? _) = false |- _ => apply Z.eqb_neq in H
         end.

(** A rune that is decoded without an encoding error is encoded back
    to the bytes it was decoded from, and the rule of the specification
    on the rune is the rule on those bytes. *)
Lemma DecodeRune_valid s c w :
  s <> [] -> DecodeRune s = (c, w) ->
  (c =? RuneError) && (w =? 1)%nat = false ->
  (1 <= w <= length s)%nat /\ escapeChar c = flat_map escapeByte (take w s).
Proof.
  intros Hs Hdec Hok. destruct s as [|b0 s1]; [done|]. clear Hs.
  unfold DecodeRune in Hdec.
  destruct (inRange 0 127 b0) eqn:H0.
  { injection Hdec as <- <-. split; [simpl; lia|].
    simpl. by rewrite escapeChar_ascii, app_nil_r. }
  destruct (inRange 194 223 b0) eqn:H1.
  { destruct s1 as [|b1 s2]; [by injection Hdec as <- <-|].
    destruct (inRange 128 191 b1) eqn:Hb1; [|by injection Hdec as <- <-].
    injection Hdec as <- <-. split; [simpl; lia|]. split_ranges.
    rewrite escapeChar_high by lia.
    change (take 2 (b0 :: b1 :: s2)) with [b0; b1].
    rewrite escapeByte_high by (repeat constructor; lia).
    unfold EncodeRune, inRange.
    destruct (Z.leb_spec 0 ((b0 - 192) * 64 + (b1 - 128))),
             (Z.leb_spec ((b0 - 192) * 64 + (b1 - 128)) 127); try lia.
    destruct (Z.leb_spec 128 ((b0 - 192) * 64 + (b1 - 128))),
             (Z.leb_spec ((b0 - 192) * 64 + (b1 - 128)) 2047); try lia.
    simpl. f_equal; [|f_equal]; Z.div_mod_to_equations; lia. }
  destruct (inRange 224 239 b0) eqn:H2.
  { destruct s1 as [|b1 [|b2 s3]]; [by injection Hdec as <- <-..|].
    destruct (inRange _ _ b1 && inRange 128 191 b2) eqn:Hb;
      [|by injection Hdec as <- <-].
    injection Hdec as <- <-. split; [simpl; lia|].
    set (c := (b0 - 224) * 4096 + (b1 - 128) * 64 + (b2 - 128)).
    assert (Hc : 2048 <= c < 65536 /\ ~ (55296 <= c <= 57343)
                 /\ 128 <= b1 <= 191 /\ 128 <= b2 <= 191).
    { unfold c. destruct (Z.eqb_spec b0 224), (Z.eqb_spec b0 237); split_ranges; lia. }
    split_ranges. rewrite escapeChar_high by lia.
    change (take 3 (b0 :: b1 :: b2 :: s3)) with [b0; b1; b2].
    rewrite escapeByte_high by (repeat constructor; lia).
    unfold EncodeRune, inRange.
    destruct (Z.leb_spec 0 c), (Z.leb_spec c 127); try lia.
    destruct (Z.leb_spec 128 c), (Z.leb_spec c 2047); try lia.
    destruct (Z.ltb_spec c 0), (Z.ltb_spec 1114111 c); try lia.
    destruct (Z.leb_spec 55296 c), (Z.leb_spec c 57343); try lia;
      destruct (Z.ltb_spec c 65536); try lia; simpl;
      (f_equal; [|f_equal; [|f_equal]]); unfold c; Z.div_mod_to_equations; lia. }
  destruct (inRange 240 244 b0) eqn:H3.
  { destruct s1 as [|b1 [|b2 [|b3 s4]]]; [by injection Hdec as <- <-..|].
    destruct (inRange _ _ b1 && inRange 128 191 b2 && inRange 128 191 b3) eqn:Hb;
      [|by injection Hdec as <- <-].
    injection Hdec as <- <-. split; [simpl; lia|].
    set (c := (b0 - 240) * 262144 + (b1 - 128) * 4096 + (b2 - 128) * 64 + (b3 - 128)).
    assert (Hc : 65536 <= c <= 1114111
                 /\ 128 <= b1 <= 191 /\ 128 <= b2 <= 191 /\ 128 <= b3 <= 191).
    { unfold c. destruct (Z.eqb_spec b0 240), (Z.eqb_spec b0 244); split_ranges; lia. }
    split_ranges. rewrite escapeChar_high by lia.
    change (take 4 (b0 :: b1 :: b2 :: b3 :: s4)) with [b0; b1; b2; b3].
    rewrite escapeByte_high by (repeat constructor; lia).
    unfold EncodeRune, inRange.
    destruct (Z.leb_spec 0 c), (Z.leb_spec c 127); try lia.
    destruct (Z.leb_spec 128 c), (Z.leb_spec c 2047); try lia.
    destruct (Z.ltb_spec c 0), (Z.ltb_spec 1114111 c); try lia.
    destruct (Z.leb_spec 55296 c), (Z.leb_spec c 57343); try lia;
      destruct (Z.ltb_spec c 65536); try lia; simpl;
      (f_equal; [|f_equal; [|f_equal; [|f_equal]]]); unfold c;
      Z.div_mod_to_equations; lia. }
  by injection Hdec as <- <-.
Qed.

Lemma escape_valid fuel : forall s,
  (length s <= fuel)%nat -> ValidFuel fuel s = true ->
  flat_map escapeChar (runesFuel fuel s) = flat_map escapeByte s.
Proof.
  induction fuel as [|fuel IH]; intros s Hlen Hvalid.
  - destruct s; [done|simpl in Hlen; lia].
  - destruct s as [|b0 s1]; [done|].
    change (ValidFuel (S fuel) (b0 :: s1)) with
      (let '(c, w) := DecodeRune (b0 :: s1) in
       negb ((c =? RuneError) && (w =? 1)%nat) && ValidFuel fuel (drop w (b0 :: s1)))
      in Hvalid.
    change (runesFuel (S fuel) (b0 :: s1)) with
      (let '(c, w) := DecodeRune (b0 :: s1) in
       c :: runesFuel fuel (drop w (b0 :: s1))).
    destruct (DecodeRune (b0 :: s1)) as [c w] eqn:Hdec.
    apply andb_true_iff in Hvalid as [Hok Hvalid].
    apply negb_true_iff in Hok.
    destruct (DecodeRune_valid (b0 :: s1) c w) as [Hw Hesc]; [done..|].
    change (flat_map escapeChar (c :: runesFuel fuel (drop w (b0 :: s1))))
      with (escapeChar c ++ flat_map escapeChar (runesFuel fuel (drop w (b0 :: s1)))).
    rewrite IH; [|rewrite length_drop; simpl in *; lia|done].
    rewrite Hesc, <- flat_map_app. by rewrite take_drop.
Qed.

(** On a path that is valid UTF-8, [pathToURI] applies the rule of the
    specification byte by byte. *)
Lemma pathToURI_bytes path :
  ValidString path = true ->
  pathToURI path = bytes "file://" ++ flat_map escapeByte path.
Proof.
  intros Hvalid. rewrite pathToURI_chars. f_equal.
  by apply escape_valid.
Qed.

End uri_facts.

(** ** The handshake *)

Module handshake_facts.
Import jsonrpc uri channel uri_facts channel_facts.

Section codecs.
Context `{Marshaler JSONRPCHeader} `{Marshaler LsInitializeParams}
        `{Unmarshaler JSONRPCHeader}.


(** The request is the first thing a started language server is sent. *)
Lemma startLanguageServer_handshake env bin directory initOpts l :
  startLanguageServer env bin directory initOpts = Started l ->
  initializeWrite env = None ->
  written l
  = [frame (MarshalEasyJSON
              (mkHeader (bytes "2.0") (bytes "initialize") 0
                        (toJSON (mkInitializeParams (pathToURI directory) initOpts))))].
Proof.
  unfold startLanguageServer. intros Hstart Hw.
  destruct (Parse env bin) as [[|exe0 exe]|]; [done| |done].
  destruct (StdinPipe env), (StdoutPipe env), (StderrPipe env), (Start env);
    try done.
  injection Hstart as <-. by rewrite Hw.
Qed.

End codecs.

End handshake_facts.

(** ** The daemon *)

Module daemon_facts.
Import channel daemon.

Section codecs.
Context `{Marshaler JSONRPCHeader} `{Marshaler LsInitializeParams}
        `{Unmarshaler JSONRPCHeader}.

Lemma serve_globals now c s s' r :
  serve now c s = Some (s', r) ->
  gShutdown s' = gShutdown s || isKill c /\ gTimeout s' = gTimeout s.
Proof.
  destruct c; simpl; intros Hs; try (injection Hs as <- _; simpl;
    by rewrite ?orb_false_r, ?orb_true_r).
  destruct (startLanguageServer _ _ _ _); [| |done];
    injection Hs as <- _; simpl; by rewrite orb_false_r.
Qed.

Lemma ServeConn_globals now calls : forall s s',
  ServeConn now calls s = Some s' ->
  gShutdown s' = gShutdown s || existsb isKill calls /\ gTimeout s' = gTimeout s.
Proof.
  induction calls as [|c calls IH]; intros s s' Hs; simpl in Hs.
  - injection Hs as <-. by rewrite orb_false_r.
  - destruct (serve now c s) as [[s1 r]|] eqn:Hc; [|done].
    apply serve_globals in Hc as [Hc1 Hc2]. apply IH in Hs as [-> ->].
    rewrite Hc1, Hc2. simpl. by rewrite orb_assoc.
Qed.

(** C6.  In the running loop, a connection is served to its end, all
    its calls in turn, before the loop looks at another event.  When
    it is served, if one of its calls was a shutdown request the loop
    stops, shutting down, and never looks at the events that follow;
    otherwise the countdown is reset to fire [timeout] after the time
    the serving ended, and the loop goes on with the next event. *)
Theorem loop_serves_connection now calls events s s' :
  gShutdown s = false ->
  ServeConn now calls s = Some s' ->
  (existsb isKill calls = true ->
   daemonMainLoop (Conn now calls :: events) s = ShuttingDown s')
  /\ (existsb isKill calls = false ->
      daemonMainLoop (Conn now calls :: events) s
      = daemonMainLoop events (resetCountdown now s')
      /\ deadline (resetCountdown now s') = now + timeout s).
Proof.
  intros Hrun Hserve.
  destruct (ServeConn_globals now calls s s' Hserve) as [Hflag Htime].
  rewrite Hrun in Hflag. simpl in Hflag.
  split; intros Hkill; rewrite Hkill in Hflag.
  - simpl. by rewrite Hserve, Hflag.
  - simpl. rewrite Hserve, Hflag. split; [done|].
    unfold timeout. by rewrite Htime.
Qed.

(** A closed language server whose error is set is logged as closed
    with that error, and every entry for it leaves the registry. *)
Lemma removeFrom_with_error closed e entries :
  let '(kept, lines) := removeFrom closed (Some e) entries in
  kept = filter (fun p => p <> closed) entries
  /\ Forall (fun line => line = LogClosedErr closed e) lines.
Proof.
  induction entries as [|p entries IH]; simpl; [done|].
  destruct (removeFrom closed (Some e) entries) as [kept lines].
  destruct IH as [-> Hlines].
  destruct (decide (p = closed)) as [->|Hne].
  - rewrite filter_cons_False by (intros Hc; by apply Hc). by split; [|constructor].
  - by rewrite filter_cons_True.
Qed.

(** A start request whose command line has no word brings the daemon
    down. *)
Lemma loop_crashes_on_blank_start now args env events s :
  Parse env (Bin args) = inl [] ->
  daemonMainLoop (Conn now [StartServer args env] :: events) s = Crashed.
Proof.
  intros Hparse. simpl.
  by rewrite (channel_facts.startLanguageServer_blank env).
Qed.

End codecs.

End daemon_facts.

(** ** Closed examples *)

Module examples.
Import jsonrpc uri channel daemon samples.
Import jsonrpc_facts uri_facts channel_facts handshake_facts daemon_facts.

Section with_example_codec.
#[local] Existing Instance exampleMarshalHeader.
#[local] Existing Instance exampleMarshalParams.
#[local] Existing Instance exampleUnmarshalHeader.

(** C1 as stated fails: after the response to request 1 was handled,
    its handler is still in the table, and a second response with the
    same id calls the handler a second time. *)
Lemma second_response_calls_again :
  let l := writeRequests sampleRequests sampleHandle in
  let l1 := stdoutReader_token sampleResponse l in
  let l2 := stdoutReader_token sampleResponse l1 in
  onResponse l1 !! 1 = Some (callerHandler 7)
  /\ calls l1 = [(callerHandler 7, bytes "x")]
  /\ calls l2 = [(callerHandler 7, bytes "x"); (callerHandler 7, bytes "x")]
  /\ ~ (onResponse l1 !! 1 = None /\ calls l2 = calls l1).
Proof.
  cbv zeta. split; [by vm_compute|]. split; [by vm_compute|].
  split; [by vm_compute|]. intros [Hgone _]. by vm_compute in Hgone.
Qed.

Lemma response_calls_registered_handler_witness :
  Z.of_nat (length sampleRequests) <= MaxInt
  /\ calls (stdoutReader_token sampleResponse
              (writeRequests sampleRequests sampleHandle))
     = calls (writeRequests sampleRequests sampleHandle)
       ++ [(callerHandler 7, bytes "x")].
Proof.
  assert (Hfit : Z.of_nat (length sampleRequests) <= MaxInt)
    by (unfold MaxInt; simpl; lia).
  split; [exact Hfit|].
  exact (proj1 (response_calls_registered_handler sampleRequests [bytes "ls"]
                  (bytes "/w") sampleResponse Hfit)).
Defined.

(** C3 as stated fails: when the reader of the output stream has
    stored its error and published, and the reader of the diagnostic
    stream then meets the end of its stream, the second error replaces
    the first, and the second reader publishes twice. *)
Lemma later_error_replaces_and_publishes_twice :
  let first := ErrScan (SplitError ErrExpectedMore) in
  let l1 := stdoutReader [] (Some first) sampleHandle in
  let l2 := fst (stderrReader [([], Some EOF)] l1) in
  err l1 = Some first
  /\ publications l1 = 1%nat
  /\ err l2 = Some EOF
  /\ publications l2 = 3%nat
  /\ ~ (err l2 = err l1 /\ publications l2 = (publications l1 + 1)%nat).
Proof.
  cbv zeta. repeat (split; [by vm_compute|]).
  intros [Hkept _]. by vm_compute in Hkept.
Qed.

Lemma terminal_error_set_once_witness :
  err closedHandle <> None
  /\ err (runOps [OpWriteRequest (bytes "hover") [] None None; OpStdoutEnd None]
                 closedHandle) <> None
  /\ stderrReader [(bytes "warn", None); ([], Some EOF)] sampleHandle
     = (fst (stderrReader [(bytes "warn", None); ([], Some EOF)] sampleHandle), true)
  /\ err (fst (stderrReader [(bytes "warn", None); ([], Some EOF)] sampleHandle))
     = firstError [(bytes "warn", None); ([], Some EOF)].
Proof.
  assert (Hset : err closedHandle <> None) by (simpl; discriminate).
  split; [exact Hset|]. split.
  - exact (proj1 (terminal_error_set_once
                    [OpWriteRequest (bytes "hover") [] None None; OpStdoutEnd None]
                    closedHandle) Hset).
  - split; [reflexivity|].
    exact (proj1 (proj1 (proj2 (proj2 (terminal_error_set_once [] sampleHandle)))
                    [(bytes "warn", None); ([], Some EOF)] _ eq_refl)).
Defined.

(** C4 as stated fails: a request on a closed handle advances the
    counter and stores its handler. *)
Lemma writeRequest_terminal_changes_state :
  let l' := writeRequest (bytes "hover") [] (Some (callerHandler 7)) None closedHandle in
  nextRequestID closedHandle = 0 /\ nextRequestID l' = 1
  /\ onResponse closedHandle !! 0 = None
  /\ onResponse l' !! 0 = Some (callerHandler 7)
  /\ ~ (nextRequestID l' = nextRequestID closedHandle
        /\ onResponse l' = onResponse closedHandle).
Proof.
  cbv zeta. repeat (split; [by vm_compute|]).
  intros [Hsame _]. by vm_compute in Hsame.
Qed.

Lemma writeRequest_terminal_witness :
  err closedHandle = Some EOF
  /\ written (writeRequest (bytes "hover") [] (Some (callerHandler 7)) None closedHandle)
     = written closedHandle.
Proof.
  split; [reflexivity|].
  exact (proj1 (proj2 (proj2 (writeRequest_terminal (bytes "hover") []
                                (Some (callerHandler 7)) None closedHandle EOF eq_refl)))).
Defined.

Lemma stderrReader_records_error_witness :
  stderrReader [(bytes "warn", None); ([], Some EOF)] sampleHandle
  = (fst (stderrReader [(bytes "warn", None); ([], Some EOF)] sampleHandle), true)
  /\ exists e, firstError [(bytes "warn", None); ([], Some EOF)] = Some e
               /\ err (fst (stderrReader [(bytes "warn", None); ([], Some EOF)]
                              sampleHandle)) = Some e.
Proof.
  split; [reflexivity|].
  exact (proj1 (stderrReader_records_error
                  [(bytes "warn", None); ([], Some EOF)] sampleHandle _ eq_refl)).
Defined.

Lemma startLanguageServer_no_words_panics_witness :
  Parse sampleEnv (bytes "  ") = inl []
  /\ startLanguageServer sampleEnv (bytes "  ") (bytes "/w") (bytes "{}") = Panics.
Proof.
  split; [reflexivity|].
  exact (startLanguageServer_no_words_panics sampleEnv (bytes "  ") (bytes "/w")
           (bytes "{}") eq_refl).
Defined.

(** The empty command line, and a well-formed one. *)
Example startLanguageServer_empty :
  startLanguageServer sampleEnv [] (bytes "/w") (bytes "{}") = Panics.
Proof. reflexivity. Qed.

Example startLanguageServer_cquery :
  match startLanguageServer sampleEnv (bytes "cquery --log-file log.txt")
          (bytes "/w") (bytes "{}") with
  | Started l =>
    cmdArgs l = [bytes "cquery"; bytes "--log-file"; bytes "log.txt"]
    /\ nextRequestID l = 1
    /\ onResponse l !! 0 = Some initializeHandler
    /\ written l = [frame (bytes "0 initialize file:///w {}")]
  | _ => False
  end.
Proof. by vm_compute. Qed.

Lemma loop_serves_connection_witness :
  (gShutdown sampleDaemon = false
   /\ ServeConn 7 [Ls; Kill] sampleDaemon
      = Some (mkState [] [] true 1800 1800000000000 4242 [])
   /\ existsb isKill [Ls; Kill] = true
   /\ daemonMainLoop (Conn 7 [Ls; Kill] :: [LanguageServerClosed 0 None]) sampleDaemon
      = ShuttingDown (mkState [] [] true 1800 1800000000000 4242 []))
  /\ (ServeConn 7 [ServerPid] sampleDaemon = Some sampleDaemon
      /\ existsb isKill [ServerPid] = false
      /\ deadline (resetCountdown 7 sampleDaemon) = 7 + timeout sampleDaemon).
Proof.
  split.
  - split; [reflexivity|]. split; [reflexivity|]. split; [reflexivity|].
    exact (proj1 (loop_serves_connection 7 [Ls; Kill] [LanguageServerClosed 0 None]
                    sampleDaemon _ eq_refl eq_refl) eq_refl).
  - split; [reflexivity|]. split; [reflexivity|].
    exact (proj2 (proj2 (loop_serves_connection 7 [ServerPid] [] sampleDaemon _
                           eq_refl eq_refl) eq_refl)).
Defined.


Example rootUri_windows :
  RootURI (initializeParams windowsHandle (bytes "{}")) = bytes "file://C%3A/My%20Docs".
Proof. by vm_compute. Qed.

(** Frames with payloads, one byte at a time. *)
Example scanStream_bytewise :
  scanStream (map (fun b => [b]) (stream [bytes "x"; bytes "abc"])) []
  = ([bytes "x"; bytes "abc"], Stopped (Some (SplitError ErrExpectedMore))).
Proof. by vm_compute. Qed.

End with_example_codec.

End examples.

(** * Further properties *)

(** ** The frame decoder on arbitrary input *)

Module jsonrpc_more.
Import jsonrpc jsonrpc_facts.

(** *** What the steps of [SplitFunc] tell about the data *)

Lemma readString_inv content atEOF : forall data i i' e,
  readString content data atEOF i = (i', e) ->
  (exists rest, drop i data = content ++ rest
                /\ i' = (i + length content)%nat /\ e = None)
  \/ (exists c1 c2, content = c1 ++ c2 /\ c2 <> [] /\ drop i data = c1
                    /\ i' = (i + length c1)%nat /\ e = maybeAddEOFError atEOF)
  \/ (exists b, e = Some (ErrUnexpectedToken b)).
Proof.
  induction content as [|c content IH]; intros data i i' e Hrun; simpl in Hrun.
  - injection Hrun as <- <-. left. exists (drop i data).
    split; [done|]. split; [simpl; lia|done].
  - destruct (data !! i) as [b|] eqn:Hi.
    + destruct (Z.eqb_spec b c) as [->|Hne].
      * apply IH in Hrun.
        assert (Hdrop : drop i data = c :: drop (S i) data)
          by (by apply drop_S).
        destruct Hrun as [(rest & Hd & -> & ->)|[(c1 & c2 & -> & Hc2 & Hd & -> & ->)|[b ->]]].
        -- left. exists rest. rewrite Hdrop, Hd. split; [done|].
           split; [simpl; lia|done].
        -- right. left. exists (c :: c1), c2. rewrite Hdrop, Hd.
           repeat split; try done. simpl. lia.
        -- right. right. by exists b.
      * injection Hrun as <- <-. right. right. by exists b.
    + injection Hrun as <- <-. right. left. exists [], (c :: content).
      apply lookup_ge_None_1 in Hi. rewrite drop_ge by done.
      repeat split; try done; simpl; lia.
Qed.

Lemma readDigits_inv rest : forall i i',
  readDigits rest i = Some i' ->
  exists ds b rest', rest = ds ++ b :: rest' /\ forallb IsDigit ds = true
                     /\ IsDigit b = false /\ i' = (i + length ds)%nat.
Proof.
  induction rest as [|b rest IH]; intros i i' Hrun; simpl in Hrun; [done|].
  destruct (IsDigit b) eqn:Hb.
  - apply IH in Hrun as (ds & b' & rest' & -> & Hds & Hb' & ->).
    exists (b :: ds), b', rest'. simpl. rewrite Hb, Hds.
    repeat split; try done; simpl; lia.
  - injection Hrun as <-. exists [], b, rest. repeat split; try done; simpl; lia.
Qed.

Lemma Atoi_digits_inv ds v :
  forallb IsDigit ds = true -> Atoi ds = inl v ->
  ds <> [] /\ v = digitsValue ds /\ 0 <= v <= MaxInt.
Proof.
  intros Hds Hv. destruct ds as [|c ds]; [done|]. split; [done|].
  assert (Hc : IsDigit c = true) by (simpl in Hds; by apply andb_true_iff in Hds as [? _]).
  pose proof (digitsValue_nonneg _ Hds) as Hpos.
  unfold Atoi in Hv. unfold IsDigit in Hc. apply andb_true_iff in Hc as [Hc1 Hc2].
  destruct (Z.eqb_spec c 43); [lia|]. destruct (Z.eqb_spec c 45); [lia|].
  rewrite Hds in Hv.
  destruct (Z.leb_spec (digitsValue (c :: ds)) MaxInt); [|done].
  injection Hv as <-. done.
Qed.

Lemma Atoi_digits_err ds e :
  forallb IsDigit ds = true -> Atoi ds = inr e ->
  (ds = [] /\ e = ErrSyntax) \/ (MaxInt < digitsValue ds /\ e = ErrRange).
Proof.
  intros Hds He. destruct ds as [|c ds].
  { left. by injection He as <-. }
  right.
  assert (Hc : IsDigit c = true) by (simpl in Hds; by apply andb_true_iff in Hds as [? _]).
  unfold Atoi in He. unfold IsDigit in Hc. apply andb_true_iff in Hc as [Hc1 Hc2].
  destruct (Z.eqb_spec c 43); [lia|]. destruct (Z.eqb_spec c 45); [lia|].
  rewrite Hds in He.
  destruct (Z.leb_spec (digitsValue (c :: ds)) MaxInt); [done|].
  by injection He as <-.
Qed.

(** *** Soundness of a returned token *)

(** X1.  Whenever [SplitFunc] returns a token, the data starts with the
    literal, a non-empty decimal number equal to the length of the
    token, a separator, and the token itself; the advance count is the
    length of all that and no error is returned.  The separator is the
    whole [\r\n\r\n], except that for an empty token, with more input
    possible, it may be a proper prefix of it that ends the data. *)
Theorem SplitFunc_token_sound data atEOF advance t err :
  len data <= MaxInt ->
  SplitFunc data atEOF = Ret advance (Some t) err ->
  err = None
  /\ exists ds sep rest,
       data = ContentLength ++ ds ++ sep ++ t ++ rest
       /\ ds <> [] /\ forallb IsDigit ds = true /\ digitsValue ds = len t
       /\ advance = len (ContentLength ++ ds ++ sep ++ t)
       /\ (sep = CRLFCRLF
           \/ (t = [] /\ rest = [] /\ atEOF = false /\ sep <> []
               /\ exists s2, s2 <> [] /\ CRLFCRLF = sep ++ s2)).
Proof.
  intros Hfit Hrun. unfold SplitFunc in Hrun.
  destruct (readString ContentLength data atEOF 0) as [i1 e1] eqn:R1.
  destruct e1 as [?|]; [done|].
  destruct (readDigits (drop i1 data) i1) as [i2|] eqn:D; [|done].
  destruct (Atoi (slice data i1 i2)) as [v|?] eqn:A; [|done].
  destruct (readString CRLFCRLF data atEOF i2) as [i3 e3] eqn:R2.
  destruct e3 as [?|]; [done|].
  (* the literal *)
  apply readString_inv in R1
    as [(rest1 & Hd1 & -> & _)|[(c1 & c2 & _ & _ & Hd1 & -> & _)|[b ?]]]; [| |done].
  2:{ rewrite drop_0 in Hd1. subst c1. simpl in D. by rewrite drop_all in D. }
  rewrite drop_0 in Hd1. subst data.
  change (0 + length ContentLength)%nat with (length ContentLength) in *.
  rewrite drop_app_length in D.
  (* the number *)
  apply readDigits_inv in D as (ds & b & rest2 & -> & Hds & Hb & ->).
  rewrite slice_middle in A.
  apply Atoi_digits_inv in A as (Hne & -> & Hv); [|done].
  set (data := ContentLength ++ ds ++ b :: rest2) in *.
  assert (Hdrop : drop (length ContentLength + length ds) data = b :: rest2).
  { unfold data. rewrite app_assoc, <- length_app. apply drop_app_length. }
  assert (Hlen : len data = Z.of_nat (length ContentLength + length ds) + len (b :: rest2)).
  { unfold data. rewrite !len_app. unfold len. lia. }
  pose proof (len_nonneg (b :: rest2)) as Hpos.
  (* the separator *)
  apply readString_inv in R2
    as [(rest3 & Hd3 & -> & _)|[(c1 & c2 & Hsep & Hc2 & Hd3 & -> & He3)|[b' ?]]];
    [| |done]; rewrite Hdrop in Hd3.
  - (* whole separator *)
    assert (Hdata : data = (ContentLength ++ ds ++ CRLFCRLF) ++ rest3).
    { unfold data. rewrite Hd3. by rewrite <- !app_assoc. }
    set (h := (length ContentLength + length ds + length CRLFCRLF)%nat) in *.
    assert (Hh : h = length (ContentLength ++ ds ++ CRLFCRLF))
      by (rewrite !length_app; unfold h; lia).
    assert (Hlen' : len data = Z.of_nat h + len rest3).
    { rewrite Hdata, len_app. unfold len. lia. }
    pose proof (len_nonneg rest3).
    destruct (Z.le_gt_cases (Z.of_nat h + digitsValue ds) MaxInt) as [Hok|Hover].
    + rewrite wrap_small in Hrun by (unfold MinInt; lia).
      destruct (Z.gtb_spec (Z.of_nat h + digitsValue ds) (len data)); [done|].
      destruct (Z.leb_spec (Z.of_nat h) (Z.of_nat h + digitsValue ds)); [|lia].
      injection Hrun as <- <- <-. split; [done|].
      assert (Hdroph : drop h data = rest3).
      { rewrite Hdata, Hh. apply drop_app_length. }
      set (t := slice data h (Z.to_nat (Z.of_nat h + digitsValue ds))).
      assert (Ht : t = take (Z.to_nat (digitsValue ds)) rest3).
      { unfold t, slice. rewrite Hdroph. f_equal. lia. }
      assert (Htl : len t = digitsValue ds).
      { rewrite Ht. unfold len. rewrite length_take. unfold len in *. lia. }
      exists ds, CRLFCRLF, (drop (Z.to_nat (digitsValue ds)) rest3).
      split.
      { rewrite Hdata, Ht, take_drop. by rewrite <- !app_assoc. }
      split; [done|]. split; [done|]. split; [done|]. split; [|by left].
      rewrite !len_app, Htl. unfold len, h. lia.
    + exfalso.
      assert (Hw : wrap (Z.of_nat h + digitsValue ds) = Z.of_nat h + digitsValue ds - 2 ^ 64).
      { unfold wrap. unfold MaxInt in *.
        rewrite <- (Z.mod_add _ (-1)) by lia.
        rewrite Z.mod_small by lia. lia. }
      rewrite Hw in Hrun. unfold MaxInt in *.
      destruct (Z.gtb_spec (Z.of_nat h + digitsValue ds - 2 ^ 64) (len data)); [done|].
      by destruct (Z.leb_spec (Z.of_nat h) (Z.of_nat h + digitsValue ds - 2 ^ 64)); [lia|].
  - (* part of the separator, at the end of the data *)
    assert (HatEOF : atEOF = false) by (by destruct atEOF).
    set (n := (length ContentLength + length ds + length c1)%nat) in *.
    assert (Hn : len data = Z.of_nat n).
    { rewrite Hlen, Hd3. unfold len, n. lia. }
    destruct (Z.eq_dec (digitsValue ds) 0) as [Hz|Hnz].
    + rewrite Hz, Z.add_0_r in Hrun.
      rewrite wrap_small in Hrun by (unfold MinInt; lia).
      destruct (Z.gtb_spec (Z.of_nat n) (len data)); [lia|].
      destruct (Z.leb_spec (Z.of_nat n) (Z.of_nat n)); [|lia].
      injection Hrun as <- <- <-. split; [done|].
      assert (Ht : slice data n (Z.to_nat (Z.of_nat n)) = []).
      { unfold slice. rewrite Nat2Z.id, Nat.sub_diag. apply take_0. }
      rewrite Ht. exists ds, c1, [].
      split; [unfold data; by rewrite Hd3, !app_nil_r|].
      split; [done|]. split; [done|]. split; [done|].
      split; [rewrite !app_nil_r, !len_app; unfold len, n; lia|].
      right. repeat split; try done; [by rewrite <- Hd3|by exists c2].
    + exfalso.
      destruct (Z.le_gt_cases (Z.of_nat n + digitsValue ds) MaxInt) as [Hok|Hover].
      * rewrite wrap_small in Hrun by (unfold MinInt; lia).
        by destruct (Z.gtb_spec (Z.of_nat n + digitsValue ds) (len data)); [|lia].
      * assert (Hw : wrap (Z.of_nat n + digitsValue ds) = Z.of_nat n + digitsValue ds - 2 ^ 64).
        { unfold wrap. unfold MaxInt in *.
          rewrite <- (Z.mod_add _ (-1)) by lia.
          rewrite Z.mod_small by lia. lia. }
        rewrite Hw in Hrun. unfold MaxInt in *.
        destruct (Z.gtb_spec (Z.of_nat n + digitsValue ds - 2 ^ 64) (len data)); [done|].
        by destruct (Z.leb_spec (Z.of_nat n) (Z.of_nat n + digitsValue ds - 2 ^ 64)); [lia|].
Qed.

Lemma SplitFunc_token_sound_witness :
  len (frame (bytes "abc") ++ bytes "Content") <= MaxInt
  /\ SplitFunc (frame (bytes "abc") ++ bytes "Content") false
     = Ret 24 (Some (bytes "abc")) None
  /\ exists ds sep rest,
       frame (bytes "abc") ++ bytes "Content"
       = ContentLength ++ ds ++ sep ++ bytes "abc" ++ rest
       /\ ds <> [] /\ forallb IsDigit ds = true
       /\ digitsValue ds = len (bytes "abc")
       /\ 24 = len (ContentLength ++ ds ++ sep ++ bytes "abc")
       /\ (sep = CRLFCRLF
           \/ (bytes "abc" = [] /\ rest = [] /\ false = false /\ sep <> []
               /\ exists s2, s2 <> [] /\ CRLFCRLF = sep ++ s2)).
Proof.
  assert (Hfit : len (frame (bytes "abc") ++ bytes "Content") <= MaxInt)
    by (by vm_compute).
  assert (Hrun : SplitFunc (frame (bytes "abc") ++ bytes "Content") false
                 = Ret 24 (Some (bytes "abc")) None) by reflexivity.
  split; [exact Hfit|]. split; [exact Hrun|].
  exact (proj2 (SplitFunc_token_sound _ false 24 (bytes "abc") None Hfit Hrun)).
Defined.

(** *** Whole frames *)

(** X2.  Data that starts with a whole frame, whose number (leading
    zeros allowed) is the length of the body and which fits a slice, is
    decoded to the body with an advance of the length of the frame:
    whatever follows the frame, with or without more input to come,
    and also for an empty body. *)
Theorem SplitFunc_whole_frame ds body rest atEOF :
  ds <> [] -> forallb IsDigit ds = true -> digitsValue ds = len body ->
  len (header ds ++ body) <= MaxInt ->
  SplitFunc (header ds ++ body ++ rest) atEOF
  = Ret (len (header ds ++ body)) (Some body) None.
Proof. intros Hne Hds Hv Hfit. by apply SplitFunc_complete. Qed.

Lemma SplitFunc_whole_frame_witness :
  bytes "007" <> [] /\ forallb IsDigit (bytes "007") = true
  /\ digitsValue (bytes "007") = len (bytes "payload")
  /\ len (header (bytes "007") ++ bytes "payload") <= MaxInt
  /\ SplitFunc (header (bytes "007") ++ bytes "payload" ++ bytes "Con") true
     = Ret (len (header (bytes "007") ++ bytes "payload")) (Some (bytes "payload")) None.
Proof.
  assert (H1 : bytes "007" <> []) by discriminate.
  assert (H2 : forallb IsDigit (bytes "007") = true) by reflexivity.
  assert (H3 : digitsValue (bytes "007") = len (bytes "payload")) by reflexivity.
  assert (H4 : len (header (bytes "007") ++ bytes "payload") <= MaxInt)
    by (by vm_compute).
  repeat (split; [assumption|]).
  exact (SplitFunc_whole_frame (bytes "007") (bytes "payload") (bytes "Con") true
           H1 H2 H3 H4).
Defined.

(** *** Incomplete frames *)

(** X3.  On a proper prefix of a frame that fits a slice, [SplitFunc]
    returns the truncation error when the input is exhausted; with more
    input possible it returns nothing, provided the frame has a body or
    the prefix ends no later than the number. *)
Theorem SplitFunc_proper_prefix ds body d more :
  declares ds body -> len (header ds ++ body) <= MaxInt ->
  d ++ more = header ds ++ body -> more <> [] ->
  SplitFunc d true = Ret 0 None (Some ErrExpectedMore)
  /\ (body <> [] \/ (length d <= length (ContentLength ++ ds))%nat ->
      SplitFunc d false = Ret 0 None None).
Proof.
  intros Hdecl Hfit Heq Hmore. split.
  - by apply (SplitFunc_truncated ds body d more).
  - intros Hside. by apply (SplitFunc_waits ds body d more).
Qed.

Lemma SplitFunc_proper_prefix_witness :
  declares (bytes "5") (bytes "12345")
  /\ len (header (bytes "5") ++ bytes "12345") <= MaxInt
  /\ (header (bytes "5") ++ bytes "12") ++ bytes "345"
     = header (bytes "5") ++ bytes "12345"
  /\ bytes "345" <> []
  /\ bytes "12345" <> []
  /\ SplitFunc (header (bytes "5") ++ bytes "12") true
     = Ret 0 None (Some ErrExpectedMore)
  /\ SplitFunc (header (bytes "5") ++ bytes "12") false = Ret 0 None None.
Proof.
  assert (H1 : declares (bytes "5") (bytes "12345")) by (by repeat split).
  assert (H2 : len (header (bytes "5") ++ bytes "12345") <= MaxInt)
    by (by vm_compute).
  assert (H3 : (header (bytes "5") ++ bytes "12") ++ bytes "345"
               = header (bytes "5") ++ bytes "12345") by reflexivity.
  assert (H4 : bytes "345" <> []) by discriminate.
  assert (H5 : bytes "12345" <> []) by discriminate.
  repeat (split; [assumption|]).
  destruct (SplitFunc_proper_prefix (bytes "5") (bytes "12345")
              (header (bytes "5") ++ bytes "12") (bytes "345") H1 H2 H3 H4)
    as [Heof Hwait].
  split; [exact Heof|]. exact (Hwait (or_introl H5)).
Defined.

(** *** Malformed headers *)

(** X4.  When the literal is followed by a byte that is not a digit,
    possibly after digits, the number decides: no digit at all is a
    syntax error (so a sign is not accepted), and a number above the
    largest [int] is a range error.  Both are returned in that call,
    whatever follows and whether or not the input is exhausted. *)
Theorem SplitFunc_bad_length ds b rest atEOF :
  forallb IsDigit ds = true -> IsDigit b = false ->
  (ds = [] ->
   SplitFunc (ContentLength ++ ds ++ b :: rest) atEOF = Ret 0 None (Some ErrSyntax))
  /\ (MaxInt < digitsValue ds ->
      SplitFunc (ContentLength ++ ds ++ b :: rest) atEOF = Ret 0 None (Some ErrRange)).
Proof.
  intros Hds Hb.
  assert (Hstep : SplitFunc (ContentLength ++ ds ++ b :: rest) atEOF
                  = match Atoi ds with
                    | inr e => Ret 0 None (Some e)
                    | inl v => SplitFunc (ContentLength ++ ds ++ b :: rest) atEOF
                    end).
  { destruct (Atoi ds) as [v|e] eqn:A; [done|].
    unfold SplitFunc. rewrite readString_match0, drop_app_length.
    rewrite readDigits_stop by done. by rewrite slice_middle, A. }
  split.
  - intros ->. by rewrite Hstep.
  - intros Hbig. rewrite Hstep.
    destruct (Atoi ds) as [v|e] eqn:A.
    + apply Atoi_digits_inv in A as (_ & -> & Hv); [lia|done].
    + apply Atoi_digits_err in A as [[-> _]|[_ ->]]; [|done..].
      unfold digitsValue, MaxInt in Hbig. simpl in Hbig. lia.
Qed.

Lemma SplitFunc_bad_length_witness :
  (forallb IsDigit [] = true /\ IsDigit 45 = false
   /\ SplitFunc (ContentLength ++ [] ++ 45 :: bytes "5" ++ CRLFCRLF) false
      = Ret 0 None (Some ErrSyntax))
  /\ (forallb IsDigit (bytes "9223372036854775808") = true /\ IsDigit CR = false
      /\ MaxInt < digitsValue (bytes "9223372036854775808")
      /\ SplitFunc (ContentLength ++ bytes "9223372036854775808" ++ CR :: [LF; CR; LF]) true
         = Ret 0 None (Some ErrRange)).
Proof.
  split.
  - split; [reflexivity|]. split; [reflexivity|].
    exact (proj1 (SplitFunc_bad_length [] 45 (bytes "5" ++ CRLFCRLF) false
                    eq_refl eq_refl) eq_refl).
  - assert (Hbig : MaxInt < digitsValue (bytes "9223372036854775808"))
      by (by vm_compute).
    split; [reflexivity|]. split; [reflexivity|]. split; [exact Hbig|].
    exact (proj2 (SplitFunc_bad_length (bytes "9223372036854775808") CR [LF; CR; LF]
                    true eq_refl eq_refl) Hbig).
Defined.

(** X5.  After the literal and a number that [Atoi] accepts, a byte
    that disagrees with the separator [\r\n\r\n] at its position is an
    unexpected-token error in that call, whether or not the input is
    exhausted. *)
Theorem SplitFunc_bad_separator ds tail atEOF k b c :
  ds <> [] -> forallb IsDigit ds = true -> digitsValue ds <= MaxInt ->
  (exists b0, tail !! 0%nat = Some b0 /\ IsDigit b0 = false) ->
  tail !! k = Some b -> CRLFCRLF !! k = Some c -> b <> c ->
  exists b', SplitFunc (ContentLength ++ ds ++ tail) atEOF
             = Ret 0 None (Some (ErrUnexpectedToken b')).
Proof.
  intros Hne Hds Hv (b0 & Hb0 & Hnd) Hb Hc Hbc.
  destruct tail as [|t0 tail]; [done|]. injection Hb0 as ->.
  unfold SplitFunc. rewrite readString_match0, drop_app_length.
  rewrite readDigits_stop by done.
  rewrite slice_middle, Atoi_digits by done.
  destruct (readString_mismatch CRLFCRLF atEOF (ContentLength ++ ds ++ b0 :: tail)
              (length ContentLength + length ds) k b c) as (i' & b' & ->);
    [|done|done|by exists b'].
  rewrite app_assoc, <- length_app. by rewrite lookup_app_r, Nat.add_comm, Nat.add_sub by lia.
Qed.

Lemma SplitFunc_bad_separator_witness :
  bytes "5" <> [] /\ forallb IsDigit (bytes "5") = true
  /\ digitsValue (bytes "5") <= MaxInt
  /\ (exists b0, [CR; CR; LF] !! 0%nat = Some b0 /\ IsDigit b0 = false)
  /\ [CR; CR; LF] !! 1%nat = Some CR /\ CRLFCRLF !! 1%nat = Some LF /\ CR <> LF
  /\ exists b', SplitFunc (ContentLength ++ bytes "5" ++ [CR; CR; LF]) false
                = Ret 0 None (Some (ErrUnexpectedToken b')).
Proof.
  assert (H1 : bytes "5" <> []) by discriminate.
  assert (H2 : forallb IsDigit (bytes "5") = true) by reflexivity.
  assert (H3 : digitsValue (bytes "5") <= MaxInt) by (by vm_compute).
  assert (H4 : exists b0, [CR; CR; LF] !! 0%nat = Some b0 /\ IsDigit b0 = false)
    by (exists CR; split; reflexivity).
  assert (H5 : CR <> LF) by discriminate.
  split; [exact H1|]. split; [exact H2|]. split; [exact H3|]. split; [exact H4|].
  split; [reflexivity|]. split; [reflexivity|]. split; [exact H5|].
  exact (SplitFunc_bad_separator (bytes "5") [CR; CR; LF] false 1%nat CR LF
           H1 H2 H3 H4 eq_refl eq_refl H5).
Defined.

(** X6.  A declared length that [Atoi] accepts but that, added to the
    length of the header, passes the largest [int] makes the sum wrap
    to a negative number; the test for missing input then fails and the
    slice expression [data[i:i+contentLength]] panics. *)
Theorem SplitFunc_length_overflow_panics ds avail atEOF :
  ds <> [] -> forallb IsDigit ds = true -> digitsValue ds <= MaxInt ->
  len (header ds ++ avail) <= MaxInt ->
  MaxInt < len (header ds) + digitsValue ds ->
  SplitFunc (header ds ++ avail) atEOF = Panic.
Proof.
  intros Hne Hds Hv Hfit Hover.
  pose proof (digitsValue_nonneg ds Hds) as Hv0.
  set (h := (length ContentLength + length ds + length CRLFCRLF)%nat).
  assert (Hh : len (header ds) = Z.of_nat h).
  { unfold header. rewrite !len_app. unfold len, h. lia. }
  rewrite len_app, Hh in Hfit. rewrite Hh in Hover.
  pose proof (len_nonneg avail).
  unfold SplitFunc, header.
  rewrite <- !app_assoc. rewrite readString_match0, drop_app_length.
  destruct (CRLFCRLF_not_digit avail) as (rest' & Hsep & Hcr).
  rewrite Hsep, readDigits_stop by done. rewrite <- Hsep.
  rewrite slice_middle, Atoi_digits by done.
  pose proof (readString_match CRLFCRLF (ContentLength ++ ds) avail atEOF) as Hsepr.
  rewrite <- app_assoc, length_app in Hsepr. rewrite Hsepr. clear Hsepr.
  fold h.
  assert (Hd : len (ContentLength ++ ds ++ CRLFCRLF ++ avail) = Z.of_nat h + len avail).
  { rewrite !len_app. unfold len, h. lia. }
  rewrite Hd.
  assert (Hw : wrap (Z.of_nat h + digitsValue ds) = Z.of_nat h + digitsValue ds - 2 ^ 64).
  { unfold wrap. unfold MaxInt in *.
    rewrite <- (Z.mod_add _ (-1)) by lia.
    rewrite Z.mod_small by lia. lia. }
  rewrite Hw. unfold MaxInt in *.
  destruct (Z.gtb_spec (Z.of_nat h + digitsValue ds - 2 ^ 64) (Z.of_nat h + len avail)); [lia|].
  by destruct (Z.leb_spec (Z.of_nat h) (Z.of_nat h + digitsValue ds - 2 ^ 64)); [lia|].
Qed.

Lemma SplitFunc_length_overflow_panics_witness :
  bytes "9223372036854775807" <> []
  /\ forallb IsDigit (bytes "9223372036854775807") = true
  /\ digitsValue (bytes "9223372036854775807") <= MaxInt
  /\ len (header (bytes "9223372036854775807") ++ bytes "abc") <= MaxInt
  /\ MaxInt < len (header (bytes "9223372036854775807"))
              + digitsValue (bytes "9223372036854775807")
  /\ SplitFunc (header (bytes "9223372036854775807") ++ bytes "abc") false = Panic.
Proof.
  assert (H1 : bytes "9223372036854775807" <> []) by discriminate.
  assert (H2 : forallb IsDigit (bytes "9223372036854775807") = true) by reflexivity.
  assert (H3 : digitsValue (bytes "9223372036854775807") <= MaxInt) by (by vm_compute).
  assert (H4 : len (header (bytes "9223372036854775807") ++ bytes "abc") <= MaxInt)
    by (by vm_compute).
  assert (H5 : MaxInt < len (header (bytes "9223372036854775807"))
                        + digitsValue (bytes "9223372036854775807"))
    by (by vm_compute).
  repeat (split; [assumption|]).
  exact (SplitFunc_length_overflow_panics (bytes "9223372036854775807") (bytes "abc")
           false H1 H2 H3 H4 H5).
Defined.

(** *** Scanning *)

Lemma scanBuffer_error fuel buf e :
  SplitFunc buf true = Ret 0 None (Some e) ->
  scanBuffer (S fuel) buf true = ([], Stopped (Some (SplitError e))).
Proof. intros Hrun. simpl. by rewrite Hrun. Qed.

Lemma scanBuffer_whole_input payloads : forall fuel ds body d more,
  Forall fits payloads ->
  declares ds body -> len (header ds ++ body) <= MaxInt ->
  d ++ more = header ds ++ body -> more <> [] ->
  (length (stream payloads ++ d) < fuel)%nat ->
  scanBuffer fuel (stream payloads ++ d) true
  = (payloads, Stopped (Some (SplitError ErrExpectedMore))).
Proof.
  induction payloads as [|p ps IH]; intros fuel ds body d more Hgood Hdecl Hfit Heq Hmore Hfuel.
  - destruct fuel as [|fuel]; [lia|].
    change (stream [] ++ d) with d. apply scanBuffer_error.
    by apply (SplitFunc_truncated ds body d more).
  - apply Forall_cons in Hgood as [Hp Hgood].
    destruct fuel as [|fuel]; [lia|].
    rewrite stream_cons, <- app_assoc in *.
    rewrite scanBuffer_token by done.
    rewrite (IH fuel ds body d more); [done..|].
    rewrite length_app in Hfuel. pose proof (frame_length_pos p). lia.
Qed.

(** X7.  Input that arrives whole, together with the end of the stream,
    and consists of frames followed by a proper prefix of one more
    frame (possibly nothing): the scan delivers the payloads of the
    whole frames in order, empty ones included, and then stops with
    the truncation error. *)
Theorem scanStream_whole_input payloads ds body d more :
  Forall fits payloads ->
  declares ds body -> len (header ds ++ body) <= MaxInt ->
  d ++ more = header ds ++ body -> more <> [] ->
  scanStream [] (stream payloads ++ d)
  = (payloads, Stopped (Some (SplitError ErrExpectedMore))).
Proof.
  intros Hgood Hdecl Hfit Heq Hmore. unfold scanStream.
  rewrite scanChunks_nil, app_nil_l.
  apply (scanBuffer_whole_input payloads _ ds body d more); try done. lia.
Qed.

Lemma scanStream_whole_input_witness :
  Forall fits [bytes "abc"; []; bytes "12345"]
  /\ declares (bytes "2000") ((bytes "abc" ++ repeat 120 1997))
  /\ len (header (bytes "2000") ++ (bytes "abc" ++ repeat 120 1997)) <= MaxInt
  /\ (header (bytes "2000") ++ bytes "abc") ++ repeat 120 1997
     = header (bytes "2000") ++ (bytes "abc" ++ repeat 120 1997)
  /\ repeat 120 1997 <> []
  /\ scanStream [] (stream [bytes "abc"; []; bytes "12345"]
                    ++ header (bytes "2000") ++ bytes "abc")
     = ([bytes "abc"; []; bytes "12345"], Stopped (Some (SplitError ErrExpectedMore))).
Proof.
  assert (H1 : Forall fits [bytes "abc"; []; bytes "12345"])
    by (repeat constructor; by vm_compute).
  assert (H2 : declares (bytes "2000") ((bytes "abc" ++ repeat 120 1997)))
    by (split; [discriminate|split; by vm_compute]).
  assert (H3 : len (header (bytes "2000") ++ (bytes "abc" ++ repeat 120 1997)) <= MaxInt)
    by (by vm_compute).
  assert (H4 : (header (bytes "2000") ++ bytes "abc") ++ repeat 120 1997
               = header (bytes "2000") ++ (bytes "abc" ++ repeat 120 1997)) by (by vm_compute).
  assert (H5 : repeat 120 1997 <> []) by discriminate.
  repeat (split; [assumption|]).
  exact (scanStream_whole_input [bytes "abc"; []; bytes "12345"] (bytes "2000")
           ((bytes "abc" ++ repeat 120 1997)) (header (bytes "2000") ++ bytes "abc") (repeat 120 1997)
           H1 H2 H3 H4 H5).
Defined.



End jsonrpc_more.

(** ** The channel under any schedule *)

Module channel_more.
Import jsonrpc uri channel jsonrpc_facts channel_facts samples.

Section codecs.
Context `{Marshaler JSONRPCHeader} `{Marshaler LsInitializeParams}
        `{Unmarshaler JSONRPCHeader}.

(** *** Request identifiers *)

Lemma stderrReader_fields reads : forall l,
  let l' := fst (stderrReader reads l) in
  onResponse l' = onResponse l /\ nextRequestID l' = nextRequestID l
  /\ written l' = written l /\ calls l' = calls l.
Proof.
  induction reads as [|[data [e|]] reads IH]; intros l; cbv zeta; simpl.
  - done.
  - unfold written, calls. simpl. rewrite !omap_app. simpl.
    by rewrite !app_nil_r.
  - destruct (IH (emit (Echoed data) l)) as (-> & -> & -> & ->).
    unfold written, calls. simpl. rewrite !omap_app. simpl.
    by rewrite !app_nil_r.
Qed.

Lemma runOp_table o l :
  match o with
  | OpWriteRequest _ _ _ _ => True
  | _ => nextRequestID (runOp o l) = nextRequestID l
         /\ onResponse (runOp o l) = onResponse l
  end.
Proof.
  destruct o; simpl; [done| | | |].
  - unfold writeNotification.
    by destruct (rawWriteMsg_table method params (-1) w l) as (-> & -> & _).
  - by destruct (stdoutReader_token_fields token l) as (-> & -> & _).
  - by destruct scanErr.
  - by destruct (stderrReader_fields reads l) as (-> & -> & _).
Qed.

Lemma writeRequests_congr reqs : forall l1 l2,
  nextRequestID l1 = nextRequestID l2 -> onResponse l1 = onResponse l2 ->
  nextRequestID (writeRequests reqs l1) = nextRequestID (writeRequests reqs l2)
  /\ onResponse (writeRequests reqs l1) = onResponse (writeRequests reqs l2).
Proof.
  induction reqs as [|[[[method params] handler] w] reqs IH]; intros l1 l2 Hn Ht;
    [done|].
  rewrite !writeRequests_cons. apply IH.
  - destruct (writeRequest_fields method params handler w l1) as (-> & _).
    destruct (writeRequest_fields method params handler w l2) as (-> & _).
    by rewrite Hn.
  - destruct (writeRequest_fields method params handler w l1) as (_ & -> & _).
    destruct (writeRequest_fields method params handler w l2) as (_ & -> & _).
    by rewrite Hn, Ht.
Qed.

Lemma runOps_cons o ops l : runOps (o :: ops) l = runOps ops (runOp o l).
Proof. done. Qed.

Lemma runOps_as_requests ops : forall l,
  nextRequestID (runOps ops l) = nextRequestID (writeRequests (requestsOf ops) l)
  /\ onResponse (runOps ops l) = onResponse (writeRequests (requestsOf ops) l).
Proof.
  induction ops as [|o ops IH]; intros l; [done|].
  rewrite runOps_cons. destruct (IH (runOp o l)) as [-> ->].
  pose proof (runOp_table o l) as Ho.
  destruct o; [done|..]; destruct Ho as [Hn Ht]; by apply writeRequests_congr.
Qed.

(** X9.  Under any schedule of operations on a handle (requests,
    notifications, tokens of the output stream, ends of the readers),
    as long as the counter does not pass the largest [int]: the counter
    has advanced by the number of requests, whatever became of their
    writes; the i-th request holds the i-th id after the starting
    value, with its own handler in the table; and nothing else in the
    table has changed.  So no two requests share an id, and
    notifications take none. *)
Theorem request_ids_any_schedule ops l :
  0 <= nextRequestID l ->
  nextRequestID l + Z.of_nat (length (requestsOf ops)) <= MaxInt ->
  let n := nextRequestID l in
  let l' := runOps ops l in
  nextRequestID l' = n + Z.of_nat (length (requestsOf ops))
  /\ forall z, onResponse l' !! z
               = if (n <=? z) && (z <? n + Z.of_nat (length (requestsOf ops)))
                 then handlerOf <$> requestsOf ops !! Z.to_nat (z - n)
                 else onResponse l !! z.
Proof.
  intros Hn Hfit. cbv zeta.
  destruct (runOps_as_requests ops l) as [-> ->].
  destruct (writeRequests_table (requestsOf ops) l Hn Hfit) as (E1 & _ & E2).
  by split.
Qed.

(** *** Writes *)

Lemma rawWriteMsg_live method params id w l :
  err l = None ->
  let l' := rawWriteMsg method params id w l in
  match w with
  | None => err l' = None
            /\ written l' = written l
                 ++ [frame (MarshalEasyJSON (mkHeader (bytes "2.0") method id params))]
            /\ publications l' = publications l
  | Some e => err l' = Some e /\ written l' = written l
              /\ publications l' = (publications l + 1)%nat
  end.
Proof.
  intros Hlive. cbv zeta. unfold rawWriteMsg, marshalToWriter. rewrite Hlive.
  unfold written, publications. destruct w; simpl.
  - rewrite !omap_app, length_app. simpl. by rewrite app_nil_r.
  - rewrite !omap_app. simpl. by rewrite app_nil_r.
Qed.

Lemma rawWriteMsg_dropped method params id w l e :
  err l = Some e ->
  let l' := rawWriteMsg method params id w l in
  err l' = Some e /\ written l' = written l /\ publications l' = publications l.
Proof.
  intros He. cbv zeta. rewrite (rawWriteMsg_terminal _ _ _ _ _ e He).
  unfold written, publications. simpl. rewrite !omap_app. simpl.
  by rewrite !app_nil_r.
Qed.

(** On a handle whose error is set, no operation before the end of a
    reader writes, publishes, or changes the error. *)
Lemma runOps_terminal ops : forall l e,
  Forall (fun o => beforeReadersEnd o = true) ops -> err l = Some e ->
  err (runOps ops l) = Some e /\ written (runOps ops l) = written l
  /\ publications (runOps ops l) = publications l.
Proof.
  induction ops as [|o ops IH]; intros l e Hops He; [done|].
  apply Forall_cons in Hops as [Ho Hops]. rewrite runOps_cons.
  assert (Hstep : err (runOp o l) = Some e /\ written (runOp o l) = written l
                  /\ publications (runOp o l) = publications l).
  { destruct o; try done; simpl.
    - unfold writeRequest.
      match goal with
      | |- context [rawWriteMsg ?m ?p ?i ?w ?l0] =>
        exact (rawWriteMsg_dropped m p i w l0 e He)
      end.
    - unfold writeNotification. by apply rawWriteMsg_dropped.
    - by destruct (stdoutReader_token_fields token l) as (_ & _ & -> & -> & ->). }
  destruct Hstep as (E1 & E2 & E3).
  destruct (IH (runOp o l) e Hops E1) as (-> & -> & ->). by rewrite E2, E3.
Qed.

(** X10.  On a live handle, for any sequence of requests and
    notifications (with tokens of the output stream handled in
    between): the writes up to the first one that fails each put one
    frame on the worker's input; the first failure becomes the terminal
    error and publishes the handle once; every later write is dropped,
    so nothing more is written or published. *)
Theorem writes_stop_at_first_failure ops l :
  Forall (fun o => beforeReadersEnd o = true) ops -> err l = None ->
  let l' := runOps ops l in
  err l' = firstWriteError ops
  /\ length (written l') = (length (written l) + writesBeforeFailure ops)%nat
  /\ publications l'
     = (publications l + match firstWriteError ops with Some _ => 1 | None => 0 end)%nat.
Proof.
  revert l. induction ops as [|o ops IH]; intros l Hops Hlive; cbv zeta.
  - simpl. rewrite Hlive. split; [done|]. split; lia.
  - apply Forall_cons in Hops as [Ho Hops]. rewrite runOps_cons.
    assert (Hwrite : forall method params id w l0,
      err l0 = None -> length (written l0) = length (written l) ->
      publications l0 = publications l ->
      writeOutcome o = Some w -> runOp o l = rawWriteMsg method params id w l0 ->
      err (runOps ops (runOp o l)) = firstWriteError (o :: ops)
      /\ length (written (runOps ops (runOp o l)))
         = (length (written l) + writesBeforeFailure (o :: ops))%nat
      /\ publications (runOps ops (runOp o l))
         = (publications l + match firstWriteError (o :: ops) with Some _ => 1 | None => 0 end)%nat).
    { intros method params id w l0 Hl0 Hw0 Hp0 Hout ->.
      pose proof (rawWriteMsg_live method params id w l0 Hl0) as Hraw.
      cbv zeta in Hraw. simpl firstWriteError. simpl writesBeforeFailure.
      rewrite Hout. destruct w as [e|].
      - destruct Hraw as (E1 & E2 & E3).
        destruct (runOps_terminal ops _ e Hops E1) as (-> & -> & ->).
        rewrite E2, E3, Hw0, Hp0. split; [done|]. split; lia.
      - destruct Hraw as (E1 & E2 & E3).
        destruct (IH _ Hops E1) as (-> & -> & ->).
        rewrite E2, E3, length_app, Hw0, Hp0. simpl. split; [done|]. split; lia. }
    destruct o; try done.
    + apply (Hwrite method params (nextRequestID l) w
               (set_onResponse
                  (<[nextRequestID l := match handler with
                                        | Some h => h
                                        | None => dummyHandler
                                        end]> (onResponse l))
                  (set_nextRequestID (wrap (nextRequestID l + 1)) l))); done.
    + apply (Hwrite method params (-1) w l); done.
    + simpl runOp. simpl firstWriteError. simpl writesBeforeFailure.
      destruct (stdoutReader_token_fields token l) as (_ & _ & E1 & E2 & E3).
      destruct (IH (stdoutReader_token token l) Hops) as (-> & -> & ->);
        [by rewrite E1|]. by rewrite E2, E3.
Qed.

(** *** The readers *)

Lemma stdoutReader_tokens_calls tokens : forall l,
  calls (fold_left (fun l token => stdoutReader_token token l) tokens l)
  = calls l ++ flat_map (dispatch (onResponse l)) tokens.
Proof.
  induction tokens as [|t tokens IH]; intros l; simpl; [by rewrite app_nil_r|].
  rewrite IH, stdoutReader_token_calls.
  destruct (stdoutReader_token_fields t l) as (-> & _).
  by rewrite <- app_assoc.
Qed.

Lemma emit_Published_observed l :
  calls (emit Published l) = calls l /\ written (emit Published l) = written l
  /\ publications (emit Published l) = (publications l + 1)%nat.
Proof.
  unfold calls, written, publications. simpl.
  rewrite !omap_app, length_app. simpl. by rewrite !app_nil_r.
Qed.

(** X11.  The reader of the output stream, from its first token to its
    return: every token is looked up in the table of handlers as it
    stood when the reader started, and the handlers found are called in
    the order of the tokens, each with the params of its token; the
    reader writes nothing to the worker and changes neither the table
    nor the counter; at the end it stores the scanner's error, if there
    is one, and publishes the handle once. *)
Theorem stdoutReader_run tokens scanErr l :
  let l' := stdoutReader tokens scanErr l in
  calls l' = calls l ++ flat_map (dispatch (onResponse l)) tokens
  /\ written l' = written l
  /\ onResponse l' = onResponse l
  /\ nextRequestID l' = nextRequestID l
  /\ err l' = match scanErr with Some e => Some e | None => err l end
  /\ publications l' = (publications l + 1)%nat.
Proof.
  cbv zeta. unfold stdoutReader, stdoutReader_end.
  pose proof (stdoutReader_tokens_calls tokens l) as Hc.
  destruct (stdoutReader_tokens_fields tokens l) as (Ht & He & Hp & Hw).
  cbv zeta in Ht, He, Hp, Hw.
  assert (Hn : forall ts l0,
    nextRequestID (fold_left (fun l token => stdoutReader_token token l) ts l0)
    = nextRequestID l0).
  { induction ts as [|t ts IH]; intros l0; simpl; [done|].
    rewrite IH. by destruct (stdoutReader_token_fields t l0) as (_ & -> & _). }
  specialize (Hn tokens l).
  set (l1 := fold_left (fun l token => stdoutReader_token token l) tokens l) in *.
  destruct scanErr as [e|].
  - destruct (emit_Published_observed (set_err (Some e) l1)) as (-> & -> & ->).
    change (calls (set_err (Some e) l1)) with (calls l1).
    change (written (set_err (Some e) l1)) with (written l1).
    change (publications (set_err (Some e) l1)) with (publications l1).
    simpl. by rewrite Hc, Hw, Ht, Hn, Hp.
  - destruct (emit_Published_observed l1) as (-> & -> & ->).
    simpl. by rewrite Hc, Hw, Ht, Hn, Hp, He.
Qed.


Lemma stderrReader_echo reads : forall l,
  echoed (fst (stderrReader reads l)) = echoed l ++ readsBeforeError reads.
Proof.
  induction reads as [|[data [e|]] reads IH]; intros l; simpl.
  - by rewrite app_nil_r.
  - unfold echoed. simpl. rewrite !omap_app. simpl. by rewrite !app_nil_r.
  - rewrite IH. unfold echoed. simpl. rewrite omap_app. simpl.
    by rewrite <- app_assoc.
Qed.

(** X13.  The reader of the diagnostic stream echoes what each read
    returned, in order, up to the first read that fails; what that read
    returned along with its error is not echoed.  It never writes to
    the worker, calls a handler or touches the table and the counter.
    While every read succeeds it stays in its loop and publishes
    nothing; when a read fails it returns, having published the handle
    twice. *)
Theorem stderrReader_run reads l :
  let l' := fst (stderrReader reads l) in
  echoed l' = echoed l ++ readsBeforeError reads
  /\ written l' = written l /\ calls l' = calls l
  /\ onResponse l' = onResponse l /\ nextRequestID l' = nextRequestID l
  /\ match firstError reads with
     | Some e => snd (stderrReader reads l) = true /\ err l' = Some e
                 /\ publications l' = (publications l + 2)%nat
     | None => snd (stderrReader reads l) = false /\ err l' = err l
               /\ publications l' = publications l
     end.
Proof.
  cbv zeta. split; [apply stderrReader_echo|].
  destruct (stderrReader_fields reads l) as (Ht & Hn & Hw & Hc).
  cbv zeta in Ht, Hn, Hw, Hc. repeat (split; [done|]).
  clear Ht Hn Hw Hc. revert l.
  induction reads as [|[data [e|]] reads IH]; intros l; simpl.
  - done.
  - split; [done|]. split; [done|].
    unfold publications. simpl. rewrite !omap_app, !length_app. simpl. lia.
  - specialize (IH (emit (Echoed data) l)).
    destruct (firstError reads); destruct IH as (-> & -> & ->); repeat split;
      unfold publications; simpl; rewrite omap_app; simpl; by rewrite app_nil_r.
Qed.

(** *** Starting *)


End codecs.

Section with_example_codec.
#[local] Existing Instance exampleMarshalHeader.
#[local] Existing Instance exampleMarshalParams.
#[local] Existing Instance exampleUnmarshalHeader.

Lemma request_ids_any_schedule_witness :
  0 <= nextRequestID sampleHandle
  /\ nextRequestID sampleHandle + Z.of_nat (length (requestsOf sampleSchedule)) <= MaxInt
  /\ nextRequestID (runOps sampleSchedule sampleHandle)
     = nextRequestID sampleHandle + Z.of_nat (length (requestsOf sampleSchedule)).
Proof.
  assert (H1 : 0 <= nextRequestID sampleHandle) by (simpl; lia).
  assert (H2 : nextRequestID sampleHandle
               + Z.of_nat (length (requestsOf sampleSchedule)) <= MaxInt)
    by (by vm_compute).
  split; [exact H1|]. split; [exact H2|].
  exact (proj1 (request_ids_any_schedule sampleSchedule sampleHandle H1 H2)).
Defined.

Lemma writes_stop_at_first_failure_witness :
  Forall (fun o => beforeReadersEnd o = true) sampleWrites
  /\ err sampleHandle = None
  /\ err (runOps sampleWrites sampleHandle) = firstWriteError sampleWrites
  /\ length (written (runOps sampleWrites sampleHandle))
     = (length (written sampleHandle) + writesBeforeFailure sampleWrites)%nat.
Proof.
  assert (H1 : Forall (fun o => beforeReadersEnd o = true) sampleWrites)
    by (repeat constructor).
  split; [exact H1|]. split; [reflexivity|].
  destruct (writes_stop_at_first_failure sampleWrites sampleHandle H1 eq_refl)
    as (He & Hw & _).
  split; [exact He|exact Hw].
Defined.



(** The second write of [sampleWrites] fails: one frame is written, the
    handle is published once, and the request after it still takes an
    id. *)
Example sampleWrites_run :
  let l := runOps sampleWrites sampleHandle in
  err l = Some brokenPipe /\ length (written l) = 1%nat
  /\ publications l = 1%nat /\ nextRequestID l = 2.
Proof. by vm_compute. Qed.

End with_example_codec.

End channel_more.

(** ** More on paths *)

Module uri_more.
Import uri uri_facts.

Lemma escapeChar_unreserved c : Forall (fun b => reserved b = None) (escapeChar c).
Proof.
  unfold escapeChar. destruct (reserved c) as [r|] eqn:Hr.
  - unfold reserved in Hr.
    repeat match type of Hr with
           | (if c =? ?k then _ else _) = _ =>
             destruct (Z.eqb_spec c k);
             [injection Hr as <-; by repeat constructor|]
           end.
    done.
  - destruct (inRange 0 127 c) eqn:Hc.
    + unfold EncodeRune. rewrite Hc. by repeat constructor.
    + eapply Forall_impl; [apply EncodeRune_bytes, Hc|].
      intros b Hb. by apply reserved_high.
Qed.

(** X15.  For every path, valid UTF-8 or not, what [pathToURI] puts
    after [file://] holds no backslash and none of the twelve reserved
    characters. *)
Theorem pathToURI_never_reserved path :
  exists rest, pathToURI path = bytes "file://" ++ rest
               /\ Forall (fun b => reserved b = None) rest.
Proof.
  exists (flat_map escapeChar (runes path)). split; [apply pathToURI_chars|].
  induction (runes path) as [|c cs IH]; simpl; [constructor|].
  apply Forall_app. split; [apply escapeChar_unreserved|done].
Qed.

Lemma runesFuel_ascii fuel : forall s,
  Forall (fun b => inRange 0 127 b = true) s -> (length s <= fuel)%nat ->
  runesFuel fuel s = s.
Proof.
  induction fuel as [|fuel IH]; intros s Hs Hlen.
  - destruct s; [done|simpl in Hlen; lia].
  - destruct s as [|b s]; [done|]. apply Forall_cons in Hs as [Hb Hs].
    change (runesFuel (S fuel) (b :: s))
      with (let '(c, w) := DecodeRune (b :: s) in c :: runesFuel fuel (drop w (b :: s))).
    unfold DecodeRune. rewrite Hb. simpl. rewrite drop_0, IH; [done..|].
    simpl in Hlen. lia.
Qed.

(** X16.  A path made of ASCII characters none of which is a backslash
    or reserved passes through unchanged: its URI is [file://] followed
    by the path itself. *)
Theorem pathToURI_plain path :
  Forall (fun b => inRange 0 127 b = true /\ reserved b = None) path ->
  pathToURI path = bytes "file://" ++ path.
Proof.
  intros Hplain. rewrite pathToURI_chars. f_equal.
  unfold runes. rewrite runesFuel_ascii; [|by eapply Forall_impl; [exact Hplain|intros ? [? _]]|done].
  induction Hplain as [|b s [Hb Hr] _ IH]; [done|]. simpl. rewrite IH.
  unfold escapeChar, EncodeRune. by rewrite Hr, Hb.
Qed.

Lemma pathToURI_plain_witness :
  Forall (fun b => inRange 0 127 b = true /\ reserved b = None) (bytes "/home/me/src")
  /\ pathToURI (bytes "/home/me/src") = bytes "file://" ++ bytes "/home/me/src".
Proof.
  assert (H1 : Forall (fun b => inRange 0 127 b = true /\ reserved b = None)
                      (bytes "/home/me/src"))
    by (repeat constructor).
  split; [exact H1|]. exact (pathToURI_plain _ H1).
Defined.

(** X17.  [pathToURI] is not one-to-one.  The percent sign is not
    escaped, so a path with a space and the path with the text [%20] in
    its place have the same URI; and a backslash and a forward slash in
    the same place give the same URI.  (Stated for paths that are valid
    UTF-8.) *)
Theorem pathToURI_collisions p q :
  (ValidString (p ++ bytes " " ++ q) = true ->
   ValidString (p ++ bytes "%20" ++ q) = true ->
   pathToURI (p ++ bytes " " ++ q) = pathToURI (p ++ bytes "%20" ++ q))
  /\ (ValidString (p ++ bytes "\" ++ q) = true ->
      ValidString (p ++ bytes "/" ++ q) = true ->
      pathToURI (p ++ bytes "\" ++ q) = pathToURI (p ++ bytes "/" ++ q)).
Proof.
  split; intros H1 H2; rewrite !pathToURI_bytes by done;
    by rewrite !flat_map_app.
Qed.

Lemma pathToURI_collisions_witness :
  ValidString (bytes "/a" ++ bytes " " ++ bytes "b") = true
  /\ ValidString (bytes "/a" ++ bytes "%20" ++ bytes "b") = true
  /\ pathToURI (bytes "/a" ++ bytes " " ++ bytes "b")
     = pathToURI (bytes "/a" ++ bytes "%20" ++ bytes "b")
  /\ ValidString (bytes "C:" ++ bytes "\" ++ bytes "b") = true
  /\ ValidString (bytes "C:" ++ bytes "/" ++ bytes "b") = true
  /\ pathToURI (bytes "C:" ++ bytes "\" ++ bytes "b")
     = pathToURI (bytes "C:" ++ bytes "/" ++ bytes "b").
Proof.
  split; [reflexivity|]. split; [reflexivity|]. split.
  - exact (proj1 (pathToURI_collisions (bytes "/a") (bytes "b")) eq_refl eq_refl).
  - split; [reflexivity|]. split; [reflexivity|].
    exact (proj2 (pathToURI_collisions (bytes "C:") (bytes "b")) eq_refl eq_refl).
Defined.

End uri_more.

(** ** The registry of the daemon *)

Module daemon_more.
Import channel daemon samples.

Lemma removeFrom_filter closed e entries :
  fst (removeFrom closed e entries) = filter (fun p => p <> closed) entries.
Proof.
  induction entries as [|p entries IH]; [done|]. simpl.
  destruct (removeFrom closed e entries) as [kept lines]. simpl in IH. subst kept.
  destruct (decide (p = closed)) as [->|Hne]; simpl.
  - by rewrite filter_cons_False by (intros Hc; by apply Hc).
  - by rewrite filter_cons_True.
Qed.

Lemma removeFrom_absent closed e entries :
  closed ∉ entries -> removeFrom closed e entries = (entries, []).
Proof.
  induction entries as [|p entries IH]; intros Habs; [done|]. simpl.
  apply not_elem_of_cons in Habs as [Hne Habs]. rewrite IH by done.
  by destruct (decide (p = closed)) as [->|_].
Qed.

Lemma removeClosed_servers closed e s :
  servers (removeClosed closed e s) = filter (fun p => p <> closed) (servers s).
Proof.
  unfold removeClosed. rewrite <- (removeFrom_filter closed e).
  by destruct (removeFrom closed e (servers s)).
Qed.

Lemma removeClosed_absent closed e s :
  closed ∉ servers s -> removeClosed closed e s = s.
Proof.
  intros Habs. unfold removeClosed. rewrite removeFrom_absent by done.
  destruct s. simpl. by rewrite app_nil_r.
Qed.

Lemma removeClosed_gone closed e s : closed ∉ servers (removeClosed closed e s).
Proof.
  rewrite removeClosed_servers. intros Hin.
  apply list_elem_of_filter in Hin as [Hne _]. by apply Hne.
Qed.

(** X18.  A notification that a language server has closed removes
    every entry of that server from the registry and leaves the other
    entries in their order, the heap, the shutdown flag and the
    deadline as they were.  A second notification for the same server,
    or one for a server that is not registered, changes nothing at
    all, not even the log. *)
Theorem closed_notification closed e s :
  servers (removeClosed closed e s) = filter (fun p => p <> closed) (servers s)
  /\ (closed ∉ servers (removeClosed closed e s))
  /\ heap (removeClosed closed e s) = heap s
  /\ gShutdown (removeClosed closed e s) = gShutdown s
  /\ deadline (removeClosed closed e s) = deadline s
  /\ (forall e', removeClosed closed e' (removeClosed closed e s)
                 = removeClosed closed e s)
  /\ (closed ∉ servers s -> removeClosed closed e s = s).
Proof.
  split; [apply removeClosed_servers|]. split; [apply removeClosed_gone|].
  assert (Hsame : heap (removeClosed closed e s) = heap s
                  /\ gShutdown (removeClosed closed e s) = gShutdown s
                  /\ deadline (removeClosed closed e s) = deadline s).
  { unfold removeClosed. by destruct (removeFrom closed e (servers s)). }
  destruct Hsame as (-> & -> & ->). repeat (split; [done|]). split.
  - intros e'. apply removeClosed_absent, removeClosed_gone.
  - apply removeClosed_absent.
Qed.

Lemma closed_notification_witness :
  (7%nat ∉ servers sampleDaemon)
  /\ removeClosed 7 (Some EOF) sampleDaemon = sampleDaemon.
Proof.
  assert (H1 : 7%nat ∉ servers sampleDaemon) by (simpl; apply not_elem_of_nil).
  split; [exact H1|].
  exact (proj2 (proj2 (proj2 (proj2 (proj2 (proj2
           (closed_notification 7 (Some EOF) sampleDaemon)))))) H1).
Defined.

Section codecs.
Context `{Marshaler JSONRPCHeader} `{Marshaler LsInitializeParams}
        `{Unmarshaler JSONRPCHeader}.

(** *** The registry stays well formed *)

Lemma serve_registryOk now c s s' r :
  registryOk s -> serve now c s = Some (s', r) -> registryOk s'.
Proof.
  intros [Hnd Hin] Hs. destruct c; simpl in Hs;
    try (injection Hs as <- _; by split).
  destruct (startLanguageServer _ _ _ _) as [ls| |]; [| |done];
    injection Hs as <- _; [|by split].
  split; simpl.
  - apply NoDup_app. split; [done|]. split; [|apply NoDup_singleton].
    intros p Hp Hp'. apply list_elem_of_singleton in Hp'. subst p.
    rewrite Forall_forall in Hin. specialize (Hin _ Hp). lia.
  - rewrite length_app. simpl. apply Forall_app. split.
    + eapply Forall_impl; [exact Hin|]. intros p Hp. simpl in Hp. lia.
    + repeat constructor. lia.
Qed.

Lemma ServeConn_registryOk now calls : forall s s',
  registryOk s -> ServeConn now calls s = Some s' -> registryOk s'.
Proof.
  induction calls as [|c calls IH]; intros s s' Hok Hs; simpl in Hs.
  - by injection Hs as <-.
  - destruct (serve now c s) as [[s1 r]|] eqn:Hc; [|done].
    eapply IH; [|exact Hs]. by eapply serve_registryOk.
Qed.

Lemma removeClosed_registryOk closed e s :
  registryOk s -> registryOk (removeClosed closed e s).
Proof.
  intros [Hnd Hin]. unfold registryOk.
  destruct (closed_notification closed e s) as (-> & _ & -> & _).
  split; [by apply NoDup_filter|].
  apply Forall_forall. intros p Hp. apply list_elem_of_filter in Hp as [_ Hp].
  rewrite Forall_forall in Hin. by apply Hin.
Qed.

Lemma iteration_registryOk ev s :
  registryOk s ->
  match iteration ev s with
  | Running s' | ShuttingDown s' => registryOk s'
  | Crashed => True
  end.
Proof.
  intros Hok. destruct ev as [now calls|closed e|]; simpl; [| |done].
  - destruct (ServeConn now calls s) as [s'|] eqn:Hs; [|done].
    pose proof (ServeConn_registryOk now calls s s' Hok Hs) as Hok'.
    destruct (gShutdown s'); [done|]. by destruct Hok'.
  - by apply removeClosed_registryOk.
Qed.

(** X19.  From a state whose registry holds each language server at
    most once and only servers that exist (the empty registry the
    daemon starts with is one), every sequence of connections,
    notifications and timer events leaves the loop in a state with such
    a registry, unless serving panics. *)
Theorem registry_stays_well_formed events : forall s,
  registryOk s ->
  match daemonMainLoop events s with
  | Running s' | ShuttingDown s' => registryOk s'
  | Crashed => True
  end.
Proof.
  induction events as [|ev events IH]; intros s Hok; [done|]. simpl.
  pose proof (iteration_registryOk ev s Hok) as Hstep.
  destruct (iteration ev s) as [s'|s'|]; [by apply IH|done..].
Qed.

(** *** Starting, listing and closing *)

Lemma entries_of_extended_heap (hp : list languageServer) ls (ps : list nat) :
  Forall (fun p => (p < length hp)%nat) ps ->
  omap (fun p => (fun l => (cmdArgs l, directory l)) <$> (hp ++ [ls]) !! p) ps
  = omap (fun p => (fun l => (cmdArgs l, directory l)) <$> hp !! p) ps.
Proof.
  induction 1 as [|p ps Hp _ IH]; [done|]. simpl.
  rewrite lookup_app_l by done.
  destruct (hp !! p); simpl; [f_equal|]; exact IH.
Qed.

Lemma listing_started s ls :
  registryOk s ->
  listing (mkState (servers s ++ [length (heap s)]) (heap s ++ [ls])
                   (gShutdown s) (gTimeout s) (deadline s) (pid s) (log s))
  = listing s ++ [(cmdArgs ls, directory ls)].
Proof.
  intros [_ Hin]. unfold listing. simpl. rewrite omap_app. f_equal.
  - by apply entries_of_extended_heap.
  - simpl. rewrite lookup_app_r by done. by rewrite Nat.sub_diag.
Qed.

Lemma startLanguageServer_fields env bin dir initOpts ls :
  startLanguageServer env bin dir initOpts = Started ls ->
  Parse env bin = inl (cmdArgs ls) /\ directory ls = dir.
Proof.
  unfold startLanguageServer. intros Hrun.
  destruct (Parse env bin) as [[|word words]|]; [done| |done].
  destruct (StdinPipe env), (StdoutPipe env), (StderrPipe env), (Start env);
    try done.
  injection Hrun as <-.
  unfold writeInitialize, writeRequest, rawWriteMsg, marshalToWriter. simpl.
  by destruct (initializeWrite env).
Qed.

(** X20.  In a state with a well-formed registry, a start request that
    succeeds is answered without error, and a list request served
    afterwards returns what it returned before followed by one new
    entry: the words of the command line and the directory of the
    request. *)
Theorem start_then_list now now' args env ls s :
  registryOk s ->
  startLanguageServer env (Bin args) (Directory args) (InitOpts args) = Started ls ->
  exists s1,
    serve now (StartServer args env) s = Some (s1, Done)
    /\ serve now' Ls s1
       = Some (s1, Listing (listing s ++ [(cmdArgs ls, Directory args)]))
    /\ Parse env (Bin args) = inl (cmdArgs ls).
Proof.
  intros Hok Hstart. simpl. rewrite Hstart. eexists. split; [done|].
  destruct (startLanguageServer_fields _ _ _ _ _ Hstart) as [Hparse Hdir].
  split; [|done]. rewrite <- Hdir.
  pose proof (listing_started s ls Hok) as Hl. unfold listing in *. simpl in *.
  by rewrite Hl.
Qed.

(** X21.  A language server that was started and is then reported
    closed leaves the registry, and what a list request returns, as
    they were before the start. *)
Theorem start_then_closed now args env ls e s s1 :
  registryOk s ->
  startLanguageServer env (Bin args) (Directory args) (InitOpts args) = Started ls ->
  serve now (StartServer args env) s = Some (s1, Done) ->
  servers (removeClosed (length (heap s)) e s1) = servers s
  /\ listing (removeClosed (length (heap s)) e s1) = listing s.
Proof.
  intros [Hnd Hin] Hstart Hserve. simpl in Hserve. rewrite Hstart in Hserve.
  injection Hserve as <-.
  assert (Hservers : filter (fun p => p <> length (heap s)) (servers s ++ [length (heap s)])
                     = servers s).
  { rewrite filter_app, filter_cons_False by (intros Hc; by apply Hc).
    rewrite filter_nil, app_nil_r.
    clear Hnd. generalize dependent (length (heap s)). intros n.
    induction 1 as [|p ps Hp _ IH]; [done|].
    rewrite filter_cons_True by lia. by rewrite IH. }
  destruct (closed_notification (length (heap s)) e
              (mkState (servers s ++ [length (heap s)]) (heap s ++ [ls])
                       (gShutdown s) (gTimeout s) (deadline s) (pid s) (log s)))
    as (Hs & _ & Hh & _).
  simpl in Hs, Hh. rewrite Hservers in Hs. split; [done|].
  unfold listing. rewrite Hs, Hh. by apply entries_of_extended_heap.
Qed.

End codecs.

Section with_example_codec.
#[local] Existing Instance exampleMarshalHeader.
#[local] Existing Instance exampleMarshalParams.
#[local] Existing Instance exampleUnmarshalHeader.

Lemma sampleDaemon_registryOk : registryOk sampleDaemon.
Proof. split; simpl; constructor. Defined.

Lemma registry_stays_well_formed_witness :
  registryOk sampleDaemon
  /\ match daemonMainLoop
             [Conn 5 [StartServer (mkStartArgs (bytes "ls") (bytes "/w") (bytes "{}")) sampleEnv];
              LanguageServerClosed 0 (Some EOF)] sampleDaemon with
     | Running s' | ShuttingDown s' => registryOk s'
     | Crashed => True
     end.
Proof.
  split; [exact sampleDaemon_registryOk|].
  exact (registry_stays_well_formed
           [Conn 5 [StartServer (mkStartArgs (bytes "ls") (bytes "/w") (bytes "{}")) sampleEnv];
            LanguageServerClosed 0 (Some EOF)]
           sampleDaemon sampleDaemon_registryOk).
Defined.

Lemma sampleStart :
  { ls | startLanguageServer sampleEnv (bytes "ls") (bytes "/w") (bytes "{}") = Started ls }.
Proof. eexists. reflexivity. Defined.

Lemma start_then_list_witness :
  registryOk sampleDaemon
  /\ startLanguageServer sampleEnv (bytes "ls") (bytes "/w") (bytes "{}")
     = Started (proj1_sig sampleStart)
  /\ exists s1,
       serve 5 (StartServer (mkStartArgs (bytes "ls") (bytes "/w") (bytes "{}")) sampleEnv)
             sampleDaemon = Some (s1, Done)
       /\ serve 6 Ls s1
          = Some (s1, Listing (listing sampleDaemon
                               ++ [(cmdArgs (proj1_sig sampleStart), bytes "/w")])).
Proof.
  split; [exact sampleDaemon_registryOk|]. split; [exact (proj2_sig sampleStart)|].
  destruct (start_then_list 5 6 (mkStartArgs (bytes "ls") (bytes "/w") (bytes "{}"))
              sampleEnv (proj1_sig sampleStart) sampleDaemon
              sampleDaemon_registryOk (proj2_sig sampleStart))
    as (s1 & Hserve & Hls & _).
  exists s1. split; [exact Hserve|exact Hls].
Defined.

Lemma start_then_closed_witness :
  registryOk sampleDaemon
  /\ startLanguageServer sampleEnv (bytes "ls") (bytes "/w") (bytes "{}")
     = Started (proj1_sig sampleStart)
  /\ servers (removeClosed (length (heap sampleDaemon)) (Some EOF)
                (mkState [0%nat] [proj1_sig sampleStart] false 1800 1800000000000 4242 []))
     = servers sampleDaemon.
Proof.
  split; [exact sampleDaemon_registryOk|]. split; [exact (proj2_sig sampleStart)|].
  exact (proj1 (start_then_closed 5 (mkStartArgs (bytes "ls") (bytes "/w") (bytes "{}"))
                  sampleEnv (proj1_sig sampleStart) (Some EOF) sampleDaemon _
                  sampleDaemon_registryOk (proj2_sig sampleStart) eq_refl)).
Defined.

End with_example_codec.

End daemon_more.
